(** * Aurora FotoLab: the photo-restoration pipeline of [src/lib/image-processing.ts]

    The TypeScript module is a pure numeric pipeline over an RGBA bitmap:
    scalar colour operators, a 3x3 box blur over a flat [Float32Array], and
    the orchestrator [enhanceImageData].

    The embedding is written once, over an interface [Number] of the
    arithmetic the module uses, and instantiated twice:

    - [binary64] is the arithmetic the program runs on: IEEE 754 double
      precision with round-to-nearest-even (the [SpecFloat] model of the
      standard library), the [Float32Array] store rounding to single
      precision, and [ToUint8Clamp] for the [Uint8ClampedArray] store.
    - [exact] is the same program read over the rationals, with no rounding;
      it is the reading in which the algebraic statements of the
      specification are meant.

    Typed arrays are lists indexed from 0; a write outside the array is
    dropped and a read outside it yields [undefined], as for JavaScript
    typed arrays.  The [Float32Array]s of one call never escape it and are
    plain values; the [Uint8ClampedArray] buffers of [ImageData] objects
    live in a store, so that identity of buffers can be discussed.

    Of the page [src/app/page.tsx] the embedding has what decides the
    adjustments handed to the pipeline: the tables [PRESETS] and [SLIDERS],
    the handlers that set the adjustments and the highlighted preset, and
    the usage badge [adjustmentsUsage].  The canvas, the file reader and the
    JPEG encoder belong to the browser and are not modelled. *)

From stdpp Require Import gmap list strings.
From Stdlib Require Import ZArith QArith Qround Qabs SpecFloat Lia Lqa.

Close Scope Q_scope.

(** ** The arithmetic interface *)

Class Number (num : Type) : Type := {
  (** an integer literal, or an integer read from a typed array *)
  lit : Z -> num;
  (** a decimal literal: [dec 2126 10000] is [0.2126] *)
  dec : Z -> positive -> num;
  nadd : num -> num -> num;
  nsub : num -> num -> num;
  nmul : num -> num -> num;
  ndiv : num -> num -> num;
  (** [a < b], [a <= b] and [a === b] *)
  nlt : num -> num -> bool;
  nle : num -> num -> bool;
  neq : num -> num -> bool;
  (** the truth value [a || b] tests *)
  truthy : num -> bool;
  Math_min : num -> num -> num;
  Math_max : num -> num -> num;
  (** what arithmetic on [undefined] yields *)
  undefined_num : num;
  (** the value a [Float32Array] holds after a store *)
  fround : num -> num;
  (** the value a [Uint8ClampedArray] holds after a store *)
  ToUint8Clamp : num -> Z
}.

Declare Scope js_scope.
Delimit Scope js_scope with js.
Infix "+" := nadd : js_scope.
Infix "-" := nsub : js_scope.
Infix "*" := nmul : js_scope.
Infix "/" := ndiv : js_scope.
Infix "<?" := nlt : js_scope.
Infix "<=?" := nle : js_scope.
Infix "===" := neq (at level 70) : js_scope.
Notation "a >? b" := (nlt b a) (only parsing) : js_scope.
Notation "a '|||' b" := (if truthy a then a else b) (at level 50, left associativity) : js_scope.

(** ** [RestorationAdjustments] *)

Record RestorationAdjustments (num : Type) : Type := {
  exposure : num;
  contrast : num;
  saturation : num;
  vibrance : num;
  warmth : num;
  sepiaReduction : num;
  shadowLift : num;
  highlightRecovery : num;
  clarity : num;
  denoise : num
}.
Arguments exposure {num} _.
Arguments contrast {num} _.
Arguments saturation {num} _.
Arguments vibrance {num} _.
Arguments warmth {num} _.
Arguments sepiaReduction {num} _.
Arguments shadowLift {num} _.
Arguments highlightRecovery {num} _.
Arguments clarity {num} _.
Arguments denoise {num} _.

(** ** [ImageData] and the store of its buffers *)

Definition loc := positive.

Record ImageData : Type := {
  width : nat;
  height : nat;
  data : loc
}.

(** The store maps the identity of a [Uint8ClampedArray] to its bytes. *)
Abbreviation heap := (gmap loc (list Z)).

(** [new Uint8ClampedArray(...)]: the new buffer is at an address the store
    does not use yet. *)
Definition alloc (bytes : list Z) (h : heap) : loc * heap :=
  let l := fresh (dom h) in (l, <[l := bytes]> h).

(** [new ImageData(array, width, height)] throws unless the array holds
    a positive number of bytes, four for each of [width * height] pixels. *)
Definition new_ImageData (l : loc) (w ht : nat) (h : heap) : option ImageData :=
  bytes ← h !! l;
  if decide (0 < length bytes ∧ length bytes = 4 * (w * ht))
  then Some {| width := w; height := ht; data := l |}
  else None.

(** The shape of an [ImageData] object: its buffer exists and has four
    bytes for each pixel of a non-empty grid. *)
Definition well_shaped (b : ImageData) (bytes : list Z) (h : heap) : Prop :=
  h !! data b = Some bytes ∧
  0 < width b ∧ 0 < height b ∧
  length bytes = 4 * (width b * height b).

(** A bitmap: a well-shaped [ImageData] whose buffer, a
    [Uint8ClampedArray], holds integers from 0 to 255. *)
Definition valid_bitmap (b : ImageData) (bytes : list Z) (h : heap) : Prop :=
  well_shaped b bytes h ∧ Forall (λ v, 0 ≤ v ≤ 255)%Z bytes.

(** Running a function from bytes to bytes as [enhanceImageData] runs its
    own: read the source buffer, allocate the output, build the result. *)
Definition run_pipeline (pipeline : nat → nat → list Z → list Z)
    (sourceImageData : ImageData) (h : heap) : option (ImageData * heap) :=
  bytes ← h !! data sourceImageData;
  let w := width sourceImageData in
  let ht := height sourceImageData in
  let '(output, h') := alloc (pipeline w ht bytes) h in
  img ← new_ImageData output w ht h';
  Some (img, h').

(** The offsets of the blur kernel, in the order the loops visit them. *)
Definition kernel : list Z := [-1; 0; 1]%Z.

(** The cells of the grid in the 3x3 window centred at [(x, y)], as pairs
    [(xx, yy)], row by row. *)
Definition window (width height x y : nat) : list (nat * nat) :=
  yy ← filter (λ v, 0 ≤ v < Z.of_nat height)%Z ((λ ky, Z.of_nat y + ky)%Z <$> kernel);
  xx ← filter (λ v, 0 ≤ v < Z.of_nat width)%Z ((λ kx, Z.of_nat x + kx)%Z <$> kernel);
  [(Z.to_nat xx, Z.to_nat yy)].

(** The number of cells of the window along one axis: the cell itself, the
    one before it unless it is the first, the one after it unless it is the
    last. *)
Definition axis_cells (n v : nat) : nat :=
  (if decide (0 < v) then 1 else 0) + 1 + (if decide (v + 1 < n) then 1 else 0).

Section Pipeline.
Context {num : Type} `{Number num}.

(** *** Scalar colour operators *)

Definition clamp (value min max : num) : num :=
  Math_min max (Math_max min value).

(** [clamp(value)] with the default bounds [min = 0], [max = 255] *)
Definition clamp255 (value : num) : num := clamp value (lit 0) (lit 255).

Definition lerp (start end_ amount : num) : num :=
  (start + (end_ - start) * amount)%js.

Definition DEFAULT_ALPHA : num := lit 255.

Definition luminance (r g b : num) : num :=
  (dec 2126 10000 * r + dec 7152 10000 * g + dec 722 10000 * b)%js.

Definition adjustSaturation (r g b amount vibrance : num) : num * num * num :=
  if (amount === lit 0)%js && (vibrance === lit 0)%js then (r, g, b)
  else
    let gray := luminance r g b in
    let satFactor := (lit 1 + amount)%js in
    let vibFactor := (lit 1 + vibrance)%js in
    let enhance (channel : num) :=
      clamp255 (lerp gray channel satFactor +
                (channel - gray) * (vibFactor - lit 1) * (lit 1 - gray / lit 255))%js in
    (enhance r, enhance g, enhance b).

Definition applyShadowHighlight (r g b shadowLift highlightRecovery : num)
  : num * num * num :=
  if (shadowLift === lit 0)%js && (highlightRecovery === lit 0)%js then (r, g, b)
  else
    let gray := luminance r g b in
    let shadowBoost :=
      if (gray <? lit 118)%js && (shadowLift >? lit 0)%js then
        let influence := ((lit 118 - gray) / lit 118)%js in
        (shadowLift * influence * dec 6 10)%js
      else lit 0 in
    let highlightReduction :=
      if (gray >? lit 170)%js && (highlightRecovery >? lit 0)%js then
        let influence := ((gray - lit 170) / (lit 255 - lit 170))%js in
        (highlightRecovery * influence * dec 7 10)%js
      else lit 0 in
    let adjustChannel (channel : num) :=
      clamp255 (channel + shadowBoost - highlightReduction)%js in
    (adjustChannel r, adjustChannel g, adjustChannel b).

Definition removeSepia (r g b amount : num) : num * num * num :=
  if (amount <=? lit 0)%js then (r, g, b)
  else
    let gray := luminance r g b in
    let strength := (amount * dec 75 100)%js in
    let cooledR := clamp255 (r - strength)%js in
    let cooledG := clamp255 (g - strength * dec 5 10)%js in
    let cooledB := clamp255 (b + strength * dec 6 10)%js in
    (lerp gray cooledR (dec 75 100),
     lerp gray cooledG (dec 85 100),
     lerp gray cooledB (dec 11 10)).

Definition applyWarmth (r g b warmth : num) : num * num * num :=
  if (warmth === lit 0)%js then (r, g, b)
  else
    let warmAmount := if (warmth >? lit 0)%js then (warmth * dec 12 10)%js else warmth in
    let coolAmount := if (warmth <? lit 0)%js then (warmth * dec (-11) 10)%js else lit 0 in
    (clamp255 (r + warmAmount)%js,
     clamp255 (g + warmAmount * dec 35 100)%js,
     clamp255 (b - warmAmount * dec 8 10 - coolAmount)%js).

(** *** Typed arrays *)

(** [a[i]] used as a number: [undefined] outside the array *)
Definition get (a : list num) (i : nat) : num := default undefined_num (a !! i).

(** [a[i] = v] on a [Float32Array]: dropped outside the array *)
Definition put (a : list num) (i : nat) (v : num) : list num := <[i := fround v]> a.

(** [new Float32Array(n)] *)
Definition new_Float32Array (n : nat) : list num := replicate n (lit 0).

(** The offsets [0, 4, 8, ...] below [n] that
    [for (let i = 0; i < n; i += 4)] visits. *)
Definition pixel_offsets (n : nat) : list nat := (λ k, 4 * k) <$> seq 0 ((n + 3) / 4).

Definition for_each_pixel (body : nat -> list num -> list num) (working : list num)
  : list num :=
  fold_left (λ w i, body i w) (pixel_offsets (length working)) working.

(** *** The blur primitive *)

(** Lines 137 to 142: one more sample, the pixel at [(xx, yy)]. *)
Definition add_sample (source : list num) (width : nat)
    (acc : num * num * num * num * num) (p : nat * nat)
  : num * num * num * num * num :=
  let '(sumR, sumG, sumB, sumA, samples) := acc in
  let idx := (p.2 * width + p.1) * 4 in
  ((sumR + get source idx)%js,
   (sumG + get source (idx + 1))%js,
   (sumB + get source (idx + 2))%js,
   (sumA + get source (idx + 3))%js,
   (samples + lit 1)%js).

(** The sums and the sample count of the window around [(x, y)]. *)
Definition blur_sums (source : list num) (width height x y : nat)
  : num * num * num * num * num :=
  fold_left (λ acc ky,
    let yy := (Z.of_nat y + ky)%Z in
    if bool_decide (yy < 0)%Z || bool_decide (yy >= Z.of_nat height)%Z then acc
    else
      fold_left (λ acc kx,
        let xx := (Z.of_nat x + kx)%Z in
        if bool_decide (xx < 0)%Z || bool_decide (xx >= Z.of_nat width)%Z then acc
        else add_sample source width acc (Z.to_nat xx, Z.to_nat yy))
        kernel acc)
    kernel (lit 0, lit 0, lit 0, lit 0, lit 0).

Definition blur_pixel (source : list num) (width height : nat)
    (result : list num) (x y : nat) : list num :=
  let '(sumR, sumG, sumB, sumA, samples) := blur_sums source width height x y in
  let target := (y * width + x) * 4 in
  let result := put result target (sumR / samples)%js in
  let result := put result (target + 1) (sumG / samples)%js in
  let result := put result (target + 2) (sumB / samples)%js in
  put result (target + 3) (sumA / samples)%js.

Definition boxBlur (source : list num) (width height : nat) : list num :=
  fold_left (λ result y,
    fold_left (λ result x, blur_pixel source width height result x y)
      (seq 0 width) result)
    (seq 0 height) (new_Float32Array (length source)).

(** What [boxBlur] stores for channel [c] of the pixel at [(x, y)],
    before the store rounds it. *)
Definition blur_value (source : list num) (width height x y c : nat) : num :=
  let '(sumR, sumG, sumB, sumA, samples) := blur_sums source width height x y in
  (match c with 0 => sumR | 1 => sumG | 2 => sumB | _ => sumA end / samples)%js.

(** The arithmetic mean as the loops compute it: the sum from the left,
    starting at 0, over a count built by adding 1 for each sample. *)
Definition sum_of (l : list num) : num := fold_left nadd l (lit 0).
Definition count_of (l : list num) : num := fold_left (λ n _, n + lit 1)%js l (lit 0).
Definition mean (l : list num) : num := (sum_of l / count_of l)%js.

(** The samples of channel [c] over the window around [(x, y)]. *)
Definition window_samples (source : list num) (width height x y c : nat) : list num :=
  (λ p, get source ((p.2 * width + p.1) * 4 + c)) <$> window width height x y.

(** *** The orchestrator *)

Definition exposureOffset (a : RestorationAdjustments num) : num :=
  (exposure a * dec 22 10)%js.

Definition contrastClamped (a : RestorationAdjustments num) : num :=
  clamp (contrast a) (lit (-80)) (lit 120).

(** [255 * (259 - contrast || 0.0001)] *)
Definition contrastDivisor (a : RestorationAdjustments num) : num :=
  (lit 255 * ((lit 259 - contrastClamped a) ||| dec 1 10000))%js.

Definition contrastFactor (a : RestorationAdjustments num) : num :=
  ((lit 259 * (contrastClamped a + lit 255)) / contrastDivisor a)%js.

(** The amount handed to [removeSepia]: [sepia * 100] with
    [sepia = sepiaReduction / 100]. *)
Definition sepiaAmount (a : RestorationAdjustments num) : num :=
  ((sepiaReduction a / lit 100) * lit 100)%js.

(** Lines 183 to 200: what the first loop does to the three colour
    channels of one pixel (exposure, contrast, the four colour operators),
    with the amount for [removeSepia] left open. *)
Definition tone_pixel (a : RestorationAdjustments num) (sepia100 : num)
    (r g b : num) : num * num * num :=
  let r := clamp255 (r + exposureOffset a)%js in
  let g := clamp255 (g + exposureOffset a)%js in
  let b := clamp255 (b + exposureOffset a)%js in
  let r := clamp255 (contrastFactor a * (r - lit 128) + lit 128)%js in
  let g := clamp255 (contrastFactor a * (g - lit 128) + lit 128)%js in
  let b := clamp255 (contrastFactor a * (b - lit 128) + lit 128)%js in
  let '(r, g, b) := adjustSaturation r g b (saturation a / lit 100)%js
                                          (vibrance a / lit 100)%js in
  let '(r, g, b) := removeSepia r g b sepia100 in
  let '(r, g, b) := applyWarmth r g b (warmth a) in
  applyShadowHighlight r g b (shadowLift a) (highlightRecovery a).

(** The body of the first loop over the pixels: read the pixel at offset
    [i], transform it, re-clamp and write back all four channels. *)
Definition tone_body (a : RestorationAdjustments num) (sepia100 : num)
    (i : nat) (working : list num) : list num :=
  let r := get working i in
  let g := get working (i + 1) in
  let b := get working (i + 2) in
  let alpha := default DEFAULT_ALPHA (working !! (i + 3)) in
  let '(r, g, b) := tone_pixel a sepia100 r g b in
  let working := put working i (clamp255 r) in
  let working := put working (i + 1) (clamp255 g) in
  let working := put working (i + 2) (clamp255 b) in
  put working (i + 3) (clamp255 alpha).

Definition denoise_body (blurred : list num) (denoiseMix : num)
    (i : nat) (working : list num) : list num :=
  let working := put working i (lerp (get working i) (get blurred i) denoiseMix) in
  let working :=
    put working (i + 1) (lerp (get working (i + 1)) (get blurred (i + 1)) denoiseMix) in
  put working (i + 2) (lerp (get working (i + 2)) (get blurred (i + 2)) denoiseMix).

Definition clarity_body (softened : list num) (clarityMix : num)
    (i : nat) (working : list num) : list num :=
  let detailR := (get working i - get softened i)%js in
  let detailG := (get working (i + 1) - get softened (i + 1))%js in
  let detailB := (get working (i + 2) - get softened (i + 2))%js in
  let working :=
    put working i (clamp255 (get working i + detailR * (dec 8 10 + clarityMix))%js) in
  let working :=
    put working (i + 1)
      (clamp255 (get working (i + 1) + detailG * (dec 8 10 + clarityMix * dec 9 10))%js) in
  put working (i + 2)
    (clamp255 (get working (i + 2) + detailB * (dec 8 10 + clarityMix * dec 9 10))%js).

(** Steps 1 to 8: the copy into the working buffer and the first loop. *)
Definition tone_pass (a : RestorationAdjustments num) (sepia100 : num)
    (bytes : list Z) : list num :=
  let working := (λ v, fround (lit v)) <$> bytes in
  for_each_pixel (tone_body a sepia100) working.

(** Step 9: [if (adjustments.denoise > 0) { ... }] *)
Definition denoise_pass (a : RestorationAdjustments num) (width height : nat)
    (working : list num) : list num :=
  if (denoise a >? lit 0)%js then
    let blurred := boxBlur working width height in
    let denoiseMix := Math_min (dec 85 100) (denoise a / lit 100)%js in
    for_each_pixel (denoise_body blurred denoiseMix) working
  else working.

(** Step 10: [if (adjustments.clarity > 0) { ... }] *)
Definition clarity_pass (a : RestorationAdjustments num) (width height : nat)
    (working : list num) : list num :=
  if (clarity a >? lit 0)%js then
    let softened := boxBlur working width height in
    let clarityMix := (clarity a / lit 100)%js in
    for_each_pixel (clarity_body softened clarityMix) working
  else working.

(** Step 11: the last loop, into a [Uint8ClampedArray]. *)
Definition quantize (working : list num) : list Z :=
  (λ v, ToUint8Clamp (clamp255 v)) <$> working.

(** The bytes of the output as a function of the bytes of the input,
    with the amount for [removeSepia] left open. *)
Definition enhance_bytes (a : RestorationAdjustments num) (sepia100 : num)
    (width height : nat) (bytes : list Z) : list Z :=
  quantize (clarity_pass a width height
             (denoise_pass a width height (tone_pass a sepia100 bytes))).

Definition enhanceImageData (sourceImageData : ImageData)
    (adjustments : RestorationAdjustments num) (h : heap)
  : option (ImageData * heap) :=
  bytes ← h !! data sourceImageData;
  let w := width sourceImageData in
  let ht := height sourceImageData in
  let '(output, h') :=
    alloc (enhance_bytes adjustments (sepiaAmount adjustments) w ht bytes) h in
  img ← new_ImageData output w ht h';
  Some (img, h').

(** *** Reference pipelines of the specification *)

(** The variant that hands [sepiaReduction] to [removeSepia] as it is,
    with no division and multiplication by 100. *)
Definition enhanceImageData_direct (sourceImageData : ImageData)
    (adjustments : RestorationAdjustments num) : heap → option (ImageData * heap) :=
  run_pipeline (enhance_bytes adjustments (sepiaReduction adjustments)) sourceImageData.

(** The pipeline with steps 9 (denoise) and 10 (clarity) left out: no
    blur is computed. *)
Definition enhance_bytes_without_blur (a : RestorationAdjustments num)
    (width height : nat) (bytes : list Z) : list Z :=
  quantize (tone_pass a (sepiaAmount a) bytes).

Definition enhanceImageData_without_blur (sourceImageData : ImageData)
    (adjustments : RestorationAdjustments num) : heap → option (ImageData * heap) :=
  run_pipeline (enhance_bytes_without_blur adjustments) sourceImageData.

(** The neutral adjustments with one exposure. *)
Definition with_exposure (e : num) : RestorationAdjustments num :=
  {| exposure := e; contrast := lit 0; saturation := lit 0;
     vibrance := lit 0; warmth := lit 0; sepiaReduction := lit 0;
     shadowLift := lit 0; highlightRecovery := lit 0; clarity := lit 0;
     denoise := lit 0 |}.

(** Exposure and contrast on one colour channel (lines 183 to 189). *)
Definition exposed (a : RestorationAdjustments num) (v : num) : num :=
  clamp255 (contrastFactor a * (clamp255 (v + exposureOffset a) - lit 128) + lit 128)%js.

(** The byte that comes out for a colour byte [v] when only exposure
    and contrast act on it, and the byte that comes out for an alpha
    byte: copy, re-clamp, store, final clamp and store. *)
Definition colour_out (a : RestorationAdjustments num) (v : Z) : Z :=
  ToUint8Clamp (clamp255 (fround (clamp255 (exposed a (fround (lit v)))))).

Definition alpha_out (v : Z) : Z :=
  ToUint8Clamp (clamp255 (fround (clamp255 (fround (lit v))))).

Definition DEFAULT_ADJUSTMENTS : RestorationAdjustments num :=
  {| exposure := lit 6; contrast := lit 12; saturation := lit 16;
     vibrance := lit 18; warmth := lit 4; sepiaReduction := lit 30;
     shadowLift := lit 12; highlightRecovery := lit 8; clarity := lit 14;
     denoise := lit 18 |}.

Definition CLEAN_SLATE_ADJUSTMENTS : RestorationAdjustments num :=
  {| exposure := lit 0; contrast := lit 0; saturation := lit 0;
     vibrance := lit 0; warmth := lit 0; sepiaReduction := lit 0;
     shadowLift := lit 0; highlightRecovery := lit 0; clarity := lit 0;
     denoise := lit 0 |}.

End Pipeline.

(** ** The arithmetic of the program: IEEE 754 binary64 *)

Abbreviation b64_add := (SFadd 53 1024).
Abbreviation b64_sub := (SFsub 53 1024).
Abbreviation b64_mul := (SFmul 53 1024).
Abbreviation b64_div := (SFdiv 53 1024).

(** An integer as a double (exact below [2^53]). *)
Definition b64_lit (z : Z) : spec_float := binary_normalize 53 1024 z 0 false.

(** A decimal literal [n / d] denotes the double nearest to it; [n] and [d]
    are exact doubles and the division rounds to nearest, ties to even. *)
Definition b64_dec (n : Z) (d : positive) : spec_float :=
  b64_div (b64_lit n) (b64_lit (Zpos d)).

Definition b64_lt (a b : spec_float) : bool := SFltb a b.
Definition b64_le (a b : spec_float) : bool := SFleb a b.
Definition b64_eq (a b : spec_float) : bool := SFeqb a b.

(** [0], [-0] and [NaN] are the falsy numbers. *)
Definition b64_truthy (a : spec_float) : bool :=
  match a with
  | S754_zero _ | S754_nan => false
  | _ => true
  end.

(** [Math.max]: [NaN] if an argument is; [+0] is larger than [-0]. *)
Definition b64_max (a b : spec_float) : spec_float :=
  match SFcompare a b with
  | None => S754_nan
  | Some Lt => b
  | Some Gt => a
  | Some Eq => match a with S754_zero true => b | _ => a end
  end.

(** [Math.min]: [NaN] if an argument is; [-0] is smaller than [+0]. *)
Definition b64_min (a b : spec_float) : spec_float :=
  match SFcompare a b with
  | None => S754_nan
  | Some Lt => a
  | Some Gt => b
  | Some Eq => match a with S754_zero false => b | _ => a end
  end.

(** The store into a [Float32Array]: round to binary32 (24 bits of
    mantissa, [emax = 128]), ties to even; the single-precision value is then
    written in its binary64 form again. *)
Definition b64_fround (a : spec_float) : spec_float :=
  match a with
  | S754_finite s m e =>
      match binary_round 24 128 s m e with
      | S754_finite s' m' e' => binary_round 53 1024 s' m' e'
      | r => r
      end
  | _ => a
  end.

(** [m * 2^e] rounded to an integer, ties to even. *)
Definition round_half_even (m e : Z) : Z :=
  if (0 <=? e)%Z then (m * 2 ^ e)%Z
  else
    let d := (2 ^ (- e))%Z in
    let q := (m / d)%Z in
    match (2 * (m mod d) ?= d)%Z with
    | Lt => q
    | Gt => (q + 1)%Z
    | Eq => if Z.even q then q else (q + 1)%Z
    end.

(** [ToUint8Clamp] of ECMAScript: [NaN] and what is below 0 give 0, what
    is above 255 gives 255, the rest is rounded, ties to even. *)
Definition b64_ToUint8Clamp (a : spec_float) : Z :=
  match a with
  | S754_nan | S754_zero _ => 0%Z
  | S754_infinity s => if s then 0%Z else 255%Z
  | S754_finite true _ _ => 0%Z
  | S754_finite false m e => Z.min 255 (round_half_even (Zpos m) e)
  end.

#[export] Instance binary64 : Number spec_float := {|
  lit := b64_lit;
  dec := b64_dec;
  nadd := b64_add;
  nsub := b64_sub;
  nmul := b64_mul;
  ndiv := b64_div;
  nlt := b64_lt;
  nle := b64_le;
  neq := b64_eq;
  truthy := b64_truthy;
  Math_min := b64_min;
  Math_max := b64_max;
  undefined_num := S754_nan;
  fround := b64_fround;
  ToUint8Clamp := b64_ToUint8Clamp
|}.

(** Equality of doubles as data (so [NaN = NaN], and [0] and [-0] differ)
    is decidable. *)
#[export] Instance spec_float_eq_dec : EqDecision spec_float.
Proof. solve_decision. Defined.

(** ** The same program over the rationals *)

Definition Q_lt (a b : Q) : bool := negb (Qle_bool b a).

Definition Q_min (a b : Q) : Q := if Qle_bool a b then a else b.
Definition Q_max (a b : Q) : Q := if Qle_bool a b then b else a.

(** A rational rounded to an integer, ties to even. *)
Definition Q_round_half_even (q : Q) : Z :=
  let f := Qfloor q in
  match (q - inject_Z f ?= 1 # 2)%Q with
  | Lt => f
  | Gt => (f + 1)%Z
  | Eq => if Z.even f then f else (f + 1)%Z
  end.

Definition Q_ToUint8Clamp (q : Q) : Z := Z.max 0 (Z.min 255 (Q_round_half_even q)).

(** There is no rounding, no infinity and no [NaN] here: a store keeps the
    number, and a read outside an array, which the program does not make on
    a well-formed bitmap, is given the value 0. *)
#[export] Instance exact : Number Q | 100 := {|
  lit := inject_Z;
  dec := Qmake;
  nadd := Qplus;
  nsub := Qminus;
  nmul := Qmult;
  ndiv := Qdiv;
  nlt := Q_lt;
  nle := Qle_bool;
  neq := Qeq_bool;
  truthy := λ a, negb (Qeq_bool a 0);
  Math_min := Q_min;
  Math_max := Q_max;
  undefined_num := 0%Q;
  fround := λ a, a;
  ToUint8Clamp := Q_ToUint8Clamp
|}.

(** ** Ranges of channels *)

(** [0 <= x <= 255], as the program would test it. *)
Definition in_range {num : Type} `{Number num} (x : num) : bool :=
  (lit 0 <=? x)%js && (x <=? lit 255)%js.

(** A channel value on binary64 is in order when it lies in [[0,255]] or is
    [NaN], which is what [clamp] returns when its argument is [NaN]. *)
Definition b64_channel_ok (x : spec_float) : Prop :=
  x = S754_nan ∨ in_range x = true.

Definition Q_channel_ok (x : Q) : Prop := (0 <= x <= 255)%Q.

(** A property of each of the three channels an operator returns. *)
Definition all3 {A : Type} (P : A → Prop) (t : A * A * A) : Prop :=
  P t.1.1 ∧ P t.1.2 ∧ P t.2.

(** The neutral adjustments with one [sepiaReduction]. *)
Definition with_sepia {num : Type} `{Number num} (s : num) : RestorationAdjustments num :=
  {| exposure := lit 0; contrast := lit 0; saturation := lit 0;
     vibrance := lit 0; warmth := lit 0; sepiaReduction := s;
     shadowLift := lit 0; highlightRecovery := lit 0; clarity := lit 0;
     denoise := lit 0 |}.

(** [Number.MIN_VALUE], the smallest positive double, [2^-1074]. *)
Definition MIN_VALUE : spec_float := S754_finite false 1 (-1074).

(** The integers from 0 to 80, the range of the [sepiaReduction] slider,
    that the division and multiplication by 100 do not give back. *)
Definition sepia_inexact : list Z := [7; 14; 28; 29; 55; 56; 57; 58]%Z.

(** ** Step 2 as the specification words it

    The byte that adding [e * 2.2] to the byte [v], clamping to [[0,255]]
    and storing gives, computed over the rationals; and the bitmap in which
    this is done to the three colour channels of every pixel, alpha being
    kept. *)
Definition exposure_byte (e : Q) (v : Z) : Z :=
  ToUint8Clamp (num:=Q) (clamp255 (lit v + e * dec 22 10)%js).

Definition exposure_bytes (e : Q) (bytes : list Z) : list Z :=
  imap (λ i v, if decide (i mod 4 = 3) then v else exposure_byte e v) bytes.

(** ** The bitmap of the end-to-end scenario of the specification

    Two pixels in one row, [(10, 10, 10, 255)] and [(250, 250, 250, 255)],
    in a store that holds nothing else. *)

Definition scenario_bytes : list Z := [10; 10; 10; 255; 250; 250; 250; 255]%Z.
Definition scenario_bitmap : ImageData := {| width := 2; height := 1; data := 1%positive |}.
Definition scenario_store : heap := {[ 1%positive := scenario_bytes ]}.

(** ** Notions used by the properties of the blur passes *)

(** The gain of the detail that clarity adds back (lines 228 to 234):
    [0.8 + clarityMix] on red, [0.8 + clarityMix * 0.9] on green and blue. *)
Definition clarity_gain {num : Type} `{Number num} (clarityMix : num) (c : nat) : num :=
  match c with
  | 0 => (dec 8 10 + clarityMix)%js
  | _ => (dec 8 10 + clarityMix * dec 9 10)%js
  end.


(** ** The page of [src/app/page.tsx]: presets, sliders and state *)

(** [AdjustmentKey = keyof RestorationAdjustments]. *)
Inductive AdjustmentKey : Set :=
  | key_exposure
  | key_contrast
  | key_saturation
  | key_vibrance
  | key_warmth
  | key_sepiaReduction
  | key_shadowLift
  | key_highlightRecovery
  | key_clarity
  | key_denoise.

#[export] Instance AdjustmentKey_eq_dec : EqDecision AdjustmentKey.
Proof. solve_decision. Defined.

(** An entry of [SLIDERS] (lines 71 to 149). The bounds are integer
    literals, read as numbers by [lit] where the code computes with them;
    the label and the helper text are display strings and are left out; no
    entry sets [step], so every slider moves by the default 1 of
    [AdjustmentSlider]. *)
Record Slider : Set := {
  slider_key : AdjustmentKey;
  slider_min : Z;
  slider_max : Z
}.

Definition SLIDERS : list Slider :=
  [ {| slider_key := key_exposure; slider_min := -40; slider_max := 40 |};
    {| slider_key := key_contrast; slider_min := -40; slider_max := 60 |};
    {| slider_key := key_saturation; slider_min := -40; slider_max := 60 |};
    {| slider_key := key_vibrance; slider_min := -30; slider_max := 60 |};
    {| slider_key := key_warmth; slider_min := -30; slider_max := 40 |};
    {| slider_key := key_sepiaReduction; slider_min := 0; slider_max := 80 |};
    {| slider_key := key_shadowLift; slider_min := 0; slider_max := 40 |};
    {| slider_key := key_highlightRecovery; slider_min := 0; slider_max := 40 |};
    {| slider_key := key_clarity; slider_min := 0; slider_max := 60 |};
    {| slider_key := key_denoise; slider_min := 0; slider_max := 60 |} ]%Z.

(** What the page uses of [Math] beyond the pipeline. *)
Class PageNumber (num : Type) : Type := {
  Math_abs : num → num;
  Math_round : num → num
}.

Section Page.
Context {num : Type} `{Number num} `{PageNumber num}.

(** [adjustments[key]] *)
Definition get_adjustment (a : RestorationAdjustments num) (key : AdjustmentKey) : num :=
  match key with
  | key_exposure => exposure a
  | key_contrast => contrast a
  | key_saturation => saturation a
  | key_vibrance => vibrance a
  | key_warmth => warmth a
  | key_sepiaReduction => sepiaReduction a
  | key_shadowLift => shadowLift a
  | key_highlightRecovery => highlightRecovery a
  | key_clarity => clarity a
  | key_denoise => denoise a
  end.

(** [{ ...prev, [key]: value }] *)
Definition set_adjustment (prev : RestorationAdjustments num) (key : AdjustmentKey)
    (value : num) : RestorationAdjustments num :=
  let field k := if decide (key = k) then value else get_adjustment prev k in
  {| exposure := field key_exposure;
     contrast := field key_contrast;
     saturation := field key_saturation;
     vibrance := field key_vibrance;
     warmth := field key_warmth;
     sepiaReduction := field key_sepiaReduction;
     shadowLift := field key_shadowLift;
     highlightRecovery := field key_highlightRecovery;
     clarity := field key_clarity;
     denoise := field key_denoise |}.

(** [{ ...base, key1: value1, key2: value2, ... }]: later entries win. *)
Definition spread (base : RestorationAdjustments num)
    (overrides : list (AdjustmentKey * num)) : RestorationAdjustments num :=
  fold_left (λ a kv, set_adjustment a kv.1 kv.2) overrides base.

(** An entry of [PRESETS] (lines 14 to 69), without its display strings
    [name] and [description]. *)
Record Preset : Type := {
  preset_id : string;
  preset_adjustments : RestorationAdjustments num
}.

Definition PRESETS : list Preset :=
  [ {| preset_id := "auto";
       preset_adjustments := spread DEFAULT_ADJUSTMENTS [] |};
    {| preset_id := "cores";
       preset_adjustments :=
         spread DEFAULT_ADJUSTMENTS
           [ (key_saturation, lit 24); (key_vibrance, lit 26); (key_warmth, lit 12);
             (key_shadowLift, lit 8); (key_highlightRecovery, lit 6) ] |};
    {| preset_id := "detalhes";
       preset_adjustments :=
         spread DEFAULT_ADJUSTMENTS
           [ (key_clarity, lit 26); (key_contrast, lit 18); (key_denoise, lit 10);
             (key_shadowLift, lit 10) ] |};
    {| preset_id := "suave";
       preset_adjustments :=
         spread DEFAULT_ADJUSTMENTS
           [ (key_exposure, lit 4); (key_contrast, lit 6); (key_clarity, lit 6);
             (key_denoise, lit 32); (key_warmth, lit 2); (key_vibrance, lit 12) ] |} ].




(** The state of [Home] that the handlers below read and write. The
    other state variables ([dragging], [processing], [originalUrl],
    [restoredUrl], [comparisonSplit]) are written by the drag handlers, the
    image loader and [processImage] only, and none of those writes the four
    fields kept here. *)
Record PageState : Type := {
  error : option string;
  fileName : option string;
  adjustments : RestorationAdjustments num;
  activePreset : option string
}.

(** The [useState] initial values (lines 194 to 201). *)
Definition initial_state : PageState :=
  {| error := None; fileName := None;
     adjustments := spread CLEAN_SLATE_ADJUSTMENTS []; activePreset := None |}.

(** [handleFile(file)] (lines 265 to 299), up to the start of the read;
    [file_type] and [file_name] are [file.type] and [file.name]. *)
Definition handleFile (file_type file_name : string) (s : PageState) : PageState :=
  if negb (String.prefix "image/" file_type) then
    {| error := Some "Por favor, selecione um arquivo de imagem válido.";
       fileName := fileName s; adjustments := adjustments s;
       activePreset := activePreset s |}
  else
    {| error := None; fileName := Some file_name;
       adjustments := spread DEFAULT_ADJUSTMENTS []; activePreset := Some "auto" |}.

(** [reader.onerror] (lines 292 to 294). *)
Definition reader_onerror (s : PageState) : PageState :=
  {| error := Some "Não foi possível carregar a imagem. Tente novamente.";
     fileName := fileName s; adjustments := adjustments s;
     activePreset := activePreset s |}.

(** [onClick] of the button of [preset] (lines 328 to 332). *)
Definition preset_onClick (preset : Preset) (s : PageState) : PageState :=
  {| error := error s; fileName := fileName s;
     adjustments := spread (preset_adjustments preset) [];
     activePreset := Some (preset_id preset) |}.

(** [resetAdjustments] (lines 354 to 357). *)
Definition resetAdjustments (s : PageState) : PageState :=
  {| error := error s; fileName := fileName s;
     adjustments := spread CLEAN_SLATE_ADJUSTMENTS []; activePreset := None |}.

(** [onClick] of the automatic-restoration button (lines 446 to 453):
    [PRESETS[0]]; were the table empty, reading [.id] of [undefined] would
    throw before any state is set. *)
Definition auto_onClick (s : PageState) : PageState :=
  match PRESETS !! 0 with
  | Some autoPreset => preset_onClick autoPreset s
  | None => s
  end.

(** [onChange] of the slider [slider] (lines 576 to 582). *)
Definition slider_onChange (slider : Slider) (value : num) (s : PageState) : PageState :=
  {| error := error s; fileName := fileName s;
     adjustments := set_adjustment (adjustments s) (slider_key slider) value;
     activePreset := None |}.

(** What the user and the browser can do to that state. Preset buttons
    and sliders are the elements rendered from [PRESETS] and [SLIDERS], named
    by their position; a position outside the table names no element. *)
Inductive Event : Type :=
  | file_chosen (file_type file_name : string)
  | reader_failed
  | preset_clicked (i : nat)
  | reset_clicked
  | auto_clicked
  | slider_changed (i : nat) (value : num).

Definition handle (s : PageState) (e : Event) : PageState :=
  match e with
  | file_chosen file_type file_name => handleFile file_type file_name s
  | reader_failed => reader_onerror s
  | preset_clicked i =>
      match PRESETS !! i with
      | Some preset => preset_onClick preset s
      | None => s
      end
  | reset_clicked => resetAdjustments s
  | auto_clicked => auto_onClick s
  | slider_changed i value =>
      match SLIDERS !! i with
      | Some slider => slider_onChange slider value s
      | None => s
      end
  end.

Definition run (events : list Event) (s : PageState) : PageState :=
  fold_left handle events s.

(** The values a range input with the bounds of [slider] and step 1 can
    report: the integers from [min] to [max]. *)
Definition slider_positions (slider : Slider) : list num :=
  lit <$> seqZ (slider_min slider) (slider_max slider - slider_min slider + 1).

Definition on_sliders (a : RestorationAdjustments num) : Prop :=
  Forall (λ slider, get_adjustment a (slider_key slider) ∈ slider_positions slider) SLIDERS.

(** An event of a slider reports one of the positions of that slider. *)
Definition slider_event (e : Event) : Prop :=
  match e with
  | slider_changed i value =>
      ∀ slider, SLIDERS !! i = Some slider → value ∈ slider_positions slider
  | _ => True
  end.

End Page.

(** [Math.round] on doubles: the nearest integer, a tie going up; what
    rounds to zero keeps its sign. *)
Definition b64_round (x : spec_float) : spec_float :=
  match x with
  | S754_finite s m e =>
      if (0 <=? e)%Z then x
      else
        let n := (if s then Z.neg m else Z.pos m) in
        let z := ((2 * n + 2 ^ (- e)) / 2 ^ (1 - e))%Z in
        if (z =? 0)%Z then S754_zero s else b64_lit z
  | _ => x
  end.

#[export] Instance binary64_page : PageNumber spec_float := {|
  Math_abs := SFabs;
  Math_round := b64_round
|}.



(** * Properties *)

(** ** Loops over the pixels of a flat buffer *)

Section Loops.
Context {num : Type} `{Number num}.
Implicit Types (w a : list num) (i j k : nat) (v : num).

Lemma length_put a i v : length (put a i v) = length a.
Proof. apply length_insert. Qed.

Lemma lookup_put_eq a i v : i < length a → put a i v !! i = Some (fround v).
Proof. intros. by apply list_lookup_insert_eq. Qed.

Lemma lookup_put_ne a i j v : i ≠ j → put a i v !! j = a !! j.
Proof. intros. by apply list_lookup_insert_ne. Qed.

Lemma get_lookup a i v : a !! i = Some v → get a i = v.
Proof. unfold get. by intros ->. Qed.

Lemma pixel_offsets_snoc n :
  (λ k, 4 * k) <$> seq 0 (S n) = ((λ k, 4 * k) <$> seq 0 n) ++ [4 * n].
Proof. by rewrite seq_S, fmap_app. Qed.

(** A body is local when it keeps the length, leaves everything outside
    the pixel at its offset alone, and computes the pixel from the pixel. *)
Record local_body (body : nat → list num → list num) : Prop := {
  local_length i w : length (body i w) = length w;
  local_frame i w j : ¬ (i ≤ j < i + 4) → body i w !! j = w !! j;
  local_reads i w w' j :
    length w = length w' →
    (∀ j', i ≤ j' < i + 4 → w !! j' = w' !! j') →
    i ≤ j < i + 4 → body i w !! j = body i w' !! j
}.

Lemma fold_pixels_spec body w n :
  local_body body →
  let w' := fold_left (λ w i, body i w) ((λ k, 4 * k) <$> seq 0 n) w in
  length w' = length w ∧
  ∀ j, w' !! j = if decide (j < 4 * n) then body (4 * (j / 4)) w !! j else w !! j.
Proof.
  intros Hb. cbv zeta. induction n as [|n IH].
  - split; [done|]. intros j. by rewrite decide_False by lia.
  - destruct IH as [IHl IHn].
    rewrite pixel_offsets_snoc, fold_left_app. cbn [fold_left].
    set (wn := fold_left _ _ w) in *.
    split; [by rewrite (local_length _ Hb)|].
    intros j. destruct (decide (4 * n ≤ j < 4 * n + 4)) as [Hj|Hj].
    + assert (j / 4 = n) as Hq by (symmetry; apply (Nat.div_unique j 4 n (j - 4 * n)); lia).
      rewrite decide_True by lia. rewrite Hq.
      apply (local_reads _ Hb); [done| |done].
      intros j' Hj'. rewrite IHn. by rewrite decide_False by lia.
    + rewrite (local_frame _ Hb) by done. rewrite IHn.
      repeat case_decide; try done; lia.
Qed.

Lemma length_for_each_pixel body w :
  local_body body → length (for_each_pixel body w) = length w.
Proof. intros Hb. apply (fold_pixels_spec body w _ Hb). Qed.

Lemma lookup_for_each_pixel body w j :
  local_body body →
  for_each_pixel body w !! j = body (4 * (j / 4)) w !! j.
Proof.
  intros Hb. unfold for_each_pixel, pixel_offsets.
  destruct (fold_pixels_spec body w ((length w + 3) / 4) Hb) as [_ ->].
  case_decide as Hj; [done|].
  assert (length w ≤ j).
  { pose proof (Nat.div_mod_eq (length w + 3) 4).
    pose proof (Nat.mod_upper_bound (length w + 3) 4). lia. }
  rewrite (lookup_ge_None_2 w j) by lia. symmetry.
  apply lookup_ge_None_2. rewrite (local_length _ Hb). lia.
Qed.

Lemma lookup_put a i j v :
  put a i v !! j = if decide (i = j ∧ i < length a) then Some (fround v) else a !! j.
Proof. apply list_lookup_insert. Qed.

(** The three loop bodies of [enhanceImageData] are local. *)

Ltac local_reads_tac w w' Hlen Hw :=
  unfold get; rewrite ?(Hw _) by lia;
  repeat match goal with |- context [let '(_, _) := ?p in _] => destruct p as [[? ?] ?] end;
  rewrite !lookup_put, !length_put, Hlen, ?(Hw _) by lia; reflexivity.

Lemma tone_body_local (a : RestorationAdjustments num) s : local_body (tone_body a s).
Proof.
  split.
  - intros i w. unfold tone_body. destruct (tone_pixel _ _ _ _ _) as [[? ?] ?].
    by rewrite !length_put.
  - intros i w j Hj. unfold tone_body. destruct (tone_pixel _ _ _ _ _) as [[? ?] ?].
    rewrite !lookup_put_ne by lia. done.
  - intros i w w' j Hlen Hw Hj. unfold tone_body.
    rewrite (Hw (i + 3)) by lia. local_reads_tac w w' Hlen Hw.
Qed.

Lemma denoise_body_local blurred mix : local_body (denoise_body blurred mix).
Proof.
  split.
  - intros i w. unfold denoise_body. by rewrite !length_put.
  - intros i w j Hj. unfold denoise_body. rewrite !lookup_put_ne by lia. done.
  - intros i w w' j Hlen Hw Hj. unfold denoise_body, get.
    rewrite !lookup_put, !length_put, Hlen, !(Hw _) by lia. done.
Qed.

Lemma clarity_body_local softened mix : local_body (clarity_body softened mix).
Proof.
  split.
  - intros i w. unfold clarity_body. by rewrite !length_put.
  - intros i w j Hj. unfold clarity_body. rewrite !lookup_put_ne by lia. done.
  - intros i w w' j Hlen Hw Hj. unfold clarity_body, get.
    rewrite !lookup_put, !length_put, Hlen, !(Hw _) by lia. done.
Qed.

(** The denoise and clarity loops never write the alpha channel. *)
Lemma denoise_body_alpha blurred mix i w j :
  j ≠ i → j ≠ i + 1 → j ≠ i + 2 → denoise_body blurred mix i w !! j = w !! j.
Proof. intros. unfold denoise_body. by rewrite !lookup_put_ne by lia. Qed.

Lemma clarity_body_alpha softened mix i w j :
  j ≠ i → j ≠ i + 1 → j ≠ i + 2 → clarity_body softened mix i w !! j = w !! j.
Proof. intros. unfold clarity_body. by rewrite !lookup_put_ne by lia. Qed.

(** What the first loop leaves at the four channels of a whole pixel. *)
Lemma tone_body_pixel (a : RestorationAdjustments num) s i w r g b alpha :
  w !! i = Some r → w !! (i + 1) = Some g → w !! (i + 2) = Some b →
  w !! (i + 3) = Some alpha →
  let w' := tone_body a s i w in
  let p := tone_pixel a s r g b in
  w' !! i = Some (fround (clamp255 p.1.1)) ∧
  w' !! (i + 1) = Some (fround (clamp255 p.1.2)) ∧
  w' !! (i + 2) = Some (fround (clamp255 p.2)) ∧
  w' !! (i + 3) = Some (fround (clamp255 alpha)).
Proof.
  intros Hr Hg Hb Ha. cbv zeta. unfold tone_body.
  rewrite (get_lookup _ _ _ Hr), (get_lookup _ _ _ Hg), (get_lookup _ _ _ Hb), Ha.
  destruct (tone_pixel a s r g b) as [[r' g'] b']. simpl.
  apply lookup_lt_Some in Hr, Hg, Hb, Ha.
  rewrite !lookup_put, !length_put.
  repeat split; repeat case_decide; try done; lia.
Qed.
End Loops.

(** ** The blur primitive *)

Section Blur.
Context {num : Type} `{Number num}.
Implicit Types (source result : list num) (x y c : nat).

(** A loop that skips with [continue] is a loop over the cells it keeps. *)
Lemma fold_left_skip {A B} (f : A → B → A) (skip : B → bool) (P : B → Prop)
    `{!∀ b, Decision (P b)} (l : list B) (acc : A) :
  (∀ b, skip b = false ↔ P b) →
  fold_left (λ a b, if skip b then a else f a b) l acc = fold_left f (filter P l) acc.
Proof.
  intros Hskip. revert acc. induction l as [|b l IH]; intros acc; [done|].
  rewrite filter_cons. cbn [fold_left]. destruct (skip b) eqn:Hb.
  - rewrite decide_False; [apply IH|]. rewrite <-Hskip. congruence.
  - rewrite decide_True by (by apply Hskip). cbn [fold_left]. apply IH.
Qed.

Lemma fold_left_via_fmap {A B C} (f : A → C → A) (g : B → C) (l : list B) (acc : A) :
  fold_left (λ a b, f a (g b)) l acc = fold_left f (g <$> l) acc.
Proof. revert acc. induction l as [|b l IH]; intros acc; [done|]. apply IH. Qed.

Lemma fold_left_via_bind {A B C} (f : A → C → A) (g : B → list C) (l : list B) (acc : A) :
  fold_left (λ a b, fold_left f (g b) a) l acc = fold_left f (l ≫= g) acc.
Proof.
  revert acc. induction l as [|b l IH]; intros acc; [done|].
  rewrite bind_cons, fold_left_app. apply IH.
Qed.

Lemma fold_left_pointwise {A B} (f g : A → B → A) (l : list B) (acc : A) :
  (∀ a b, f a b = g a b) → fold_left f l acc = fold_left g l acc.
Proof.
  intros Hfg. revert acc. induction l as [|b l IH]; intros acc; [done|].
  cbn [fold_left]. rewrite Hfg. apply IH.
Qed.

Lemma skip_iff (n : nat) (v : Z) :
  bool_decide (v < 0)%Z || bool_decide (v >= Z.of_nat n)%Z = false
  ↔ (0 ≤ v < Z.of_nat n)%Z.
Proof. rewrite orb_false_iff, !bool_decide_eq_false. lia. Qed.

Lemma blur_sums_window source width height x y :
  blur_sums source width height x y
  = fold_left (add_sample source width) (window width height x y)
      (lit 0, lit 0, lit 0, lit 0, lit 0).
Proof.
  unfold blur_sums, window.
  rewrite <-fold_left_via_bind.
  rewrite <-(fold_left_skip _
    (λ v, bool_decide (v < 0)%Z || bool_decide (v >= Z.of_nat height)%Z))
    by apply skip_iff.
  rewrite <-fold_left_via_fmap.
  apply fold_left_pointwise. intros acc ky. cbv zeta.
  destruct (_ || _); [done|].
  rewrite <-fold_left_via_bind.
  rewrite <-(fold_left_skip _
    (λ v, bool_decide (v < 0)%Z || bool_decide (v >= Z.of_nat width)%Z))
    by apply skip_iff.
  rewrite <-fold_left_via_fmap.
  apply fold_left_pointwise. intros acc' kx. cbv zeta.
  by destruct (_ || _).
Qed.

Lemma fold_add_sample source width (l : list (nat * nat)) sR sG sB sA n :
  fold_left (add_sample source width) l (sR, sG, sB, sA, n)
  = (fold_left nadd ((λ p, get source ((p.2 * width + p.1) * 4 + 0)) <$> l) sR,
     fold_left nadd ((λ p, get source ((p.2 * width + p.1) * 4 + 1)) <$> l) sG,
     fold_left nadd ((λ p, get source ((p.2 * width + p.1) * 4 + 2)) <$> l) sB,
     fold_left nadd ((λ p, get source ((p.2 * width + p.1) * 4 + 3)) <$> l) sA,
     fold_left (λ n _, n + lit 1)%js l n).
Proof.
  revert sR sG sB sA n. induction l as [|p l IH]; intros; [done|].
  cbn [fold_left fmap list_fmap]. rewrite <-IH. by rewrite Nat.add_0_r.
Qed.

Lemma count_of_fmap {A} (g : A → num) (l : list A) (n : num) :
  fold_left (λ n _, n + lit 1)%js (g <$> l) n = fold_left (λ n _, n + lit 1)%js l n.
Proof. revert n. induction l as [|p l IH]; intros; [done|]. apply IH. Qed.

Lemma blur_value_mean source width height x y c :
  c < 4 →
  blur_value source width height x y c = mean (window_samples source width height x y c).
Proof.
  intros Hc. unfold blur_value, mean, sum_of, count_of, window_samples.
  rewrite blur_sums_window, fold_add_sample, count_of_fmap.
  destruct c as [|[|[|[|?]]]]; [done..|lia].
Qed.

(** The window, one axis at a time. *)
Lemma window_axis (n v : nat) :
  v < n →
  filter (λ u, 0 ≤ u < Z.of_nat n)%Z ((λ k, Z.of_nat v + k)%Z <$> kernel)
  = (if decide (0 < v) then [(Z.of_nat v + -1)%Z] else [])
    ++ [(Z.of_nat v + 0)%Z]
    ++ (if decide (v + 1 < n) then [(Z.of_nat v + 1)%Z] else []).
Proof.
  intros Hv. unfold kernel. cbn [fmap list_fmap].
  rewrite !filter_cons, filter_nil.
  repeat case_decide; try lia; done.
Qed.

Lemma elem_of_window_axis (n v : nat) (u : Z) :
  v < n →
  u ∈ filter (λ u, 0 ≤ u < Z.of_nat n)%Z ((λ k, Z.of_nat v + k)%Z <$> kernel)
  ↔ (0 ≤ u < Z.of_nat n ∧ Z.of_nat v - 1 ≤ u ≤ Z.of_nat v + 1)%Z.
Proof.
  intros Hv. rewrite list_elem_of_filter, list_elem_of_fmap. unfold kernel.
  split.
  - intros [Hu (k & -> & Hk)]. split; [done|].
    repeat (apply elem_of_cons in Hk as [->|Hk]; [lia|]). by apply elem_of_nil in Hk.
  - intros [Hu Hk]. split; [done|]. exists (u - Z.of_nat v)%Z. split; [lia|].
    assert (u - Z.of_nat v = -1 ∨ u - Z.of_nat v = 0 ∨ u - Z.of_nat v = 1)%Z
      as [-> | [-> | ->]] by lia; set_solver.
Qed.

Lemma NoDup_window_axis (n v : nat) :
  NoDup (filter (λ u, 0 ≤ u < Z.of_nat n)%Z ((λ k, Z.of_nat v + k)%Z <$> kernel)).
Proof.
  apply NoDup_filter, NoDup_fmap_2; [intros ???; lia|].
  unfold kernel. repeat (apply NoDup_cons; split; [set_solver|]). apply NoDup_nil_2.
Qed.

Lemma elem_of_window width height x y xx yy :
  x < width → y < height →
  (xx, yy) ∈ window width height x y
  ↔ xx < width ∧ yy < height ∧ x ≤ xx + 1 ∧ xx ≤ x + 1 ∧ y ≤ yy + 1 ∧ yy ≤ y + 1.
Proof.
  intros Hx Hy. unfold window. rewrite list_elem_of_bind. split.
  - intros (v & Hin & Hv). apply list_elem_of_bind in Hin as (u & Hin & Hu).
    apply list_elem_of_singleton in Hin. inversion Hin; subst.
    apply elem_of_window_axis in Hu, Hv; [lia|done..].
  - intros (?&?&?&?&?&?). exists (Z.of_nat yy). split.
    + apply list_elem_of_bind. exists (Z.of_nat xx). split.
      * rewrite !Nat2Z.id. by apply list_elem_of_singleton.
      * apply elem_of_window_axis; [done|lia].
    + apply elem_of_window_axis; [done|lia].
Qed.

Lemma NoDup_window width height x y : NoDup (window width height x y).
Proof.
  unfold window. apply NoDup_bind; [| |apply NoDup_window_axis].
  - intros v1 v2 p Hv1 Hv2 Hp1 Hp2.
    apply list_elem_of_bind in Hp1 as (u1 & Hp1 & _), Hp2 as (u2 & Hp2 & _).
    apply list_elem_of_singleton in Hp1, Hp2. subst p. inversion Hp2.
    apply list_elem_of_filter in Hv1 as [? _], Hv2 as [? _]. lia.
  - intros v Hv. apply NoDup_bind; [| |apply NoDup_window_axis].
    + intros u1 u2 p Hu1 Hu2 Hp1 Hp2.
      apply list_elem_of_singleton in Hp1, Hp2. subst p. inversion Hp2.
      apply list_elem_of_filter in Hu1 as [? _], Hu2 as [? _]. lia.
    + intros. apply NoDup_singleton.
Qed.

Lemma length_window width height x y :
  x < width → y < height →
  length (window width height x y) = axis_cells width x * axis_cells height y.
Proof.
  intros Hx Hy. unfold window, axis_cells.
  rewrite (window_axis width x Hx), (window_axis height y Hy).
  repeat case_decide; reflexivity.
Qed.

Lemma pixel_index_inj width x y x' y' :
  x < width → x' < width → y * width + x = y' * width + x' → x = x' ∧ y = y'.
Proof.
  intros Hx Hx' Heq.
  assert (y = y') as -> by nia. split; [lia|done].
Qed.

Lemma length_blur_pixel source width height result x y :
  length (blur_pixel source width height result x y) = length result.
Proof.
  unfold blur_pixel. destruct (blur_sums _ _ _ _ _) as [[[[? ?] ?] ?] ?].
  by rewrite !length_put.
Qed.

Lemma blur_pixel_frame source width height result x y j :
  ¬ ((y * width + x) * 4 ≤ j < (y * width + x) * 4 + 4) →
  blur_pixel source width height result x y !! j = result !! j.
Proof.
  intros Hj. unfold blur_pixel. destruct (blur_sums _ _ _ _ _) as [[[[? ?] ?] ?] ?].
  rewrite !lookup_put_ne by lia. done.
Qed.

Lemma blur_pixel_hit source width height result x y c :
  c < 4 → (y * width + x) * 4 + c < length result →
  blur_pixel source width height result x y !! ((y * width + x) * 4 + c)
  = Some (fround (blur_value source width height x y c)).
Proof.
  intros Hc Hlen. unfold blur_pixel, blur_value.
  destruct (blur_sums _ _ _ _ _) as [[[[sR sG] sB] sA] n].
  rewrite !lookup_put, !length_put.
  destruct c as [|[|[|[|?]]]]; try lia;
    repeat case_decide; try done; try lia.
  all: by rewrite ?Nat.add_0_r in *.
Qed.

(** The two nested loops over the grid visit the pixels one by one. *)
Lemma fold_grid {A} (f : A → nat → nat → A) (xs ys : list nat) (r : A) :
  fold_left (λ r y, fold_left (λ r x, f r x y) xs r) ys r
  = fold_left (λ r p, f r p.1 p.2) (y ← ys; x ← xs; [(x, y)]) r.
Proof.
  revert r. induction ys as [|y ys IH]; intros r; [done|].
  rewrite bind_cons, fold_left_app. cbn [fold_left]. rewrite IH. f_equal.
  clear IH. revert r. induction xs as [|x xs IH]; intros r; [done|].
  rewrite bind_cons. cbn [fold_left app]. by rewrite IH.
Qed.

Lemma fold_blur_pixels source width height (ps : list (nat * nat)) result :
  Forall (λ p, p.1 < width) ps →
  let r' := fold_left (λ r p, blur_pixel source width height r p.1 p.2) ps result in
  length r' = length result ∧
  ∀ p c, p ∈ ps → c < 4 → (p.2 * width + p.1) * 4 + c < length result →
    r' !! ((p.2 * width + p.1) * 4 + c)
    = Some (fround (blur_value source width height p.1 p.2 c)).
Proof.
  cbv zeta. induction ps as [|q ps IH] using rev_ind; intros Hps.
  { split; [done|]. intros ?? Hin. by apply elem_of_nil in Hin. }
  apply Forall_app in Hps as [Hps Hq]. rewrite Forall_singleton in Hq.
  destruct (IH Hps) as [IHl IHv]. clear IH.
  rewrite fold_left_app. cbn [fold_left].
  split; [by rewrite length_blur_pixel|].
  intros p c Hin Hc Hlen. destruct (decide (p = q)) as [->|Hne].
  - apply blur_pixel_hit; [done|]. by rewrite IHl.
  - apply elem_of_app in Hin as [Hin|Hin%list_elem_of_singleton]; [|done].
    rewrite blur_pixel_frame; [by apply IHv|].
    assert (p.1 < width) as Hp by (by apply (proj1 (Forall_forall _ _) Hps)).
    intros ?. apply Hne. simpl in Hq.
    assert (p.2 * width + p.1 = q.2 * width + q.1) as Heq by lia.
    apply pixel_index_inj in Heq as [??]; [|exact Hp|exact Hq].
    destruct p, q; simpl in *; congruence.
Qed.

Lemma grid_cells width height (p : nat * nat) :
  p ∈ (y ← seq 0 height; x ← seq 0 width; [(x, y)]) ↔ p.1 < width ∧ p.2 < height.
Proof.
  destruct p as [x y]. simpl. rewrite list_elem_of_bind. split.
  - intros (y' & Hin & Hy). apply list_elem_of_bind in Hin as (x' & Hin & Hx).
    apply list_elem_of_singleton in Hin. apply elem_of_seq in Hx, Hy.
    inversion Hin. lia.
  - intros [Hx Hy]. exists y. split; [|apply elem_of_seq; lia].
    apply list_elem_of_bind. exists x. split; [|apply elem_of_seq; lia].
    by apply list_elem_of_singleton.
Qed.

Lemma grid_cells_bound width height :
  Forall (λ p : nat * nat, p.1 < width) (y ← seq 0 height; x ← seq 0 width; [(x, y)]).
Proof. apply Forall_forall. intros p Hin. by apply grid_cells in Hin as [? _]. Qed.

Lemma length_boxBlur source width height :
  length (boxBlur source width height) = length source.
Proof.
  unfold boxBlur. rewrite (fold_grid (λ r x y, blur_pixel source width height r x y)).
  destruct (fold_blur_pixels source width height _
              (new_Float32Array (length source)) (grid_cells_bound width height))
    as [-> _].
  unfold new_Float32Array. by rewrite length_replicate.
Qed.

Lemma lookup_boxBlur source width height x y c :
  x < width → y < height → c < 4 → (y * width + x) * 4 + c < length source →
  boxBlur source width height !! ((y * width + x) * 4 + c)
  = Some (fround (blur_value source width height x y c)).
Proof.
  intros Hx Hy Hc Hlen.
  unfold boxBlur. rewrite (fold_grid (λ r x y, blur_pixel source width height r x y)).
  destruct (fold_blur_pixels source width height _
              (new_Float32Array (length source)) (grid_cells_bound width height))
    as [_ Hv].
  apply (Hv (x, y) c); [by apply grid_cells|done|].
  unfold new_Float32Array. by rewrite length_replicate.
Qed.
End Blur.

(** ** The orchestrator *)

Section Orchestrator.
Context {num : Type} `{Number num}.
Implicit Types (a : RestorationAdjustments num) (bytes : list Z) (h : heap).

Lemma length_tone_pass a s bytes : length (tone_pass a s bytes) = length bytes.
Proof.
  unfold tone_pass. rewrite length_for_each_pixel by apply tone_body_local.
  apply length_fmap.
Qed.

Lemma length_denoise_pass a width height (w : list num) :
  length (denoise_pass a width height w) = length w.
Proof.
  unfold denoise_pass. destruct (nlt _ _); [|done].
  apply length_for_each_pixel, denoise_body_local.
Qed.

Lemma length_clarity_pass a width height (w : list num) :
  length (clarity_pass a width height w) = length w.
Proof.
  unfold clarity_pass. destruct (nlt _ _); [|done].
  apply length_for_each_pixel, clarity_body_local.
Qed.

Lemma length_enhance_bytes a s width height bytes :
  length (enhance_bytes a s width height bytes) = length bytes.
Proof.
  unfold enhance_bytes, quantize.
  by rewrite length_fmap, length_clarity_pass, length_denoise_pass, length_tone_pass.
Qed.

(** [run_pipeline] on a well-shaped bitmap, for a pipeline that keeps the
    number of bytes. *)
Lemma run_pipeline_well_shaped pipeline b bytes h :
  well_shaped b bytes h →
  length (pipeline (width b) (height b) bytes) = length bytes →
  run_pipeline pipeline b h
  = Some ({| width := width b; height := height b; data := fresh (dom h) |},
          <[fresh (dom h) := pipeline (width b) (height b) bytes]> h).
Proof.
  intros (Hb & Hw & Hh & Hlen) Hout. unfold run_pipeline, alloc, new_ImageData.
  rewrite Hb. simpl. rewrite lookup_insert_eq. simpl.
  rewrite decide_True; [done|]. rewrite Hout, Hlen. nia.
Qed.

Lemma enhanceImageData_run b a h :
  enhanceImageData b a h = run_pipeline (enhance_bytes a (sepiaAmount a)) b h.
Proof. reflexivity. Qed.

(** The four channels of a pixel after the first loop. *)
Lemma lookup_tone_pass a s bytes k r g b alpha :
  bytes !! (4 * k) = Some r → bytes !! (4 * k + 1) = Some g →
  bytes !! (4 * k + 2) = Some b → bytes !! (4 * k + 3) = Some alpha →
  let p := tone_pixel a s (fround (lit r)) (fround (lit g)) (fround (lit b)) in
  let w := tone_pass a s bytes in
  w !! (4 * k) = Some (fround (clamp255 p.1.1)) ∧
  w !! (4 * k + 1) = Some (fround (clamp255 p.1.2)) ∧
  w !! (4 * k + 2) = Some (fround (clamp255 p.2)) ∧
  w !! (4 * k + 3) = Some (fround (clamp255 (fround (lit alpha)))).
Proof.
  intros Hr Hg Hb Ha. cbv zeta. unfold tone_pass.
  rewrite !lookup_for_each_pixel by apply tone_body_local.
  assert (∀ c, c < 4 → 4 * ((4 * k + c) / 4) = 4 * k) as Hk.
  { intros c Hc. f_equal. symmetry. apply (Nat.div_unique _ 4 k c); lia. }
  pose proof (Hk 0) as Hk0. rewrite Nat.add_0_r in Hk0.
  rewrite Hk0, !Hk by lia.
  apply tone_body_pixel; rewrite list_lookup_fmap;
    by rewrite ?Hr, ?Hg, ?Hb, ?Ha.
Qed.

(** The blur passes leave the alpha channel of the working buffer alone. *)
Lemma lookup_denoise_pass_alpha a width height (w : list num) k :
  denoise_pass a width height w !! (4 * k + 3) = w !! (4 * k + 3).
Proof.
  unfold denoise_pass. destruct (nlt _ _); [|done].
  rewrite lookup_for_each_pixel by apply denoise_body_local.
  assert (4 * ((4 * k + 3) / 4) = 4 * k) as ->.
  { f_equal. symmetry. apply (Nat.div_unique _ 4 k 3); lia. }
  apply denoise_body_alpha; lia.
Qed.

Lemma lookup_clarity_pass_alpha a width height (w : list num) k :
  clarity_pass a width height w !! (4 * k + 3) = w !! (4 * k + 3).
Proof.
  unfold clarity_pass. destruct (nlt _ _); [|done].
  rewrite lookup_for_each_pixel by apply clarity_body_local.
  assert (4 * ((4 * k + 3) / 4) = 4 * k) as ->.
  { f_equal. symmetry. apply (Nat.div_unique _ 4 k 3); lia. }
  apply clarity_body_alpha; lia.
Qed.

(** Every pixel of a buffer of [4 * n] bytes has its four bytes. *)
Lemma pixel_bytes bytes n k :
  length bytes = 4 * n → k < n →
  ∃ r g b alpha,
    bytes !! (4 * k) = Some r ∧ bytes !! (4 * k + 1) = Some g ∧
    bytes !! (4 * k + 2) = Some b ∧ bytes !! (4 * k + 3) = Some alpha.
Proof.
  intros Hlen Hk.
  destruct (lookup_lt_is_Some_2 bytes (4 * k)) as [r Hr]; [lia|].
  destruct (lookup_lt_is_Some_2 bytes (4 * k + 1)) as [g Hg]; [lia|].
  destruct (lookup_lt_is_Some_2 bytes (4 * k + 2)) as [b Hb]; [lia|].
  destruct (lookup_lt_is_Some_2 bytes (4 * k + 3)) as [al Hal]; [lia|].
  by exists r, g, b, al.
Qed.

(** The alpha byte that comes out depends on the alpha byte that went in
    and on nothing else. *)
Lemma lookup_enhance_bytes_alpha a s width height bytes n k alpha :
  length bytes = 4 * n → k < n →
  bytes !! (4 * k + 3) = Some alpha →
  enhance_bytes a s width height bytes !! (4 * k + 3) = Some (alpha_out alpha).
Proof.
  intros Hlen Hk Ha.
  destruct (pixel_bytes bytes n k Hlen Hk) as (r & g & b & al & Hr & Hg & Hb & Hal).
  assert (al = alpha) as -> by congruence.
  unfold enhance_bytes, quantize. rewrite list_lookup_fmap.
  rewrite lookup_clarity_pass_alpha, lookup_denoise_pass_alpha.
  destruct (lookup_tone_pass a s bytes k r g b alpha Hr Hg Hb Ha) as (_ & _ & _ & ->).
  reflexivity.
Qed.
End Orchestrator.

(** ** The pipeline when only exposure is set *)

Section Exposure.
Context {num : Type} `{Number num}.

(** The zero tests of the colour operators and of the two blur passes,
    at the neutral value of their parameters. *)
Hypothesis zero_is_zero : (lit 0 === lit 0)%js = true.
Hypothesis zero_percent_is_zero : (lit 0 / lit 100 === lit 0)%js = true.
Hypothesis zero_sepia_is_off : (lit 0 / lit 100 * lit 100 <=? lit 0)%js = true.
Hypothesis zero_is_not_positive : (lit 0 >? lit 0)%js = false.

Lemma tone_pixel_with_exposure (e r g b : num) :
  let a := with_exposure e in
  tone_pixel a (sepiaAmount a) r g b = (exposed a r, exposed a g, exposed a b).
Proof.
  cbv zeta. unfold tone_pixel, adjustSaturation, removeSepia, applyWarmth,
    applyShadowHighlight, sepiaAmount. cbn [with_exposure saturation vibrance warmth
    sepiaReduction shadowLift highlightRecovery].
  by rewrite zero_percent_is_zero, zero_sepia_is_off, zero_is_zero.
Qed.

Lemma blur_passes_with_exposure (e : num) width height (w : list num) :
  clarity_pass (with_exposure e) width height
    (denoise_pass (with_exposure e) width height w) = w.
Proof.
  unfold clarity_pass, denoise_pass. cbn [with_exposure clarity denoise].
  by rewrite zero_is_not_positive.
Qed.

Lemma lookup_enhance_bytes_with_exposure (e : num) width height bytes n k c v :
  let a := with_exposure e in
  length bytes = 4 * n → k < n → c < 3 →
  bytes !! (4 * k + c) = Some v →
  enhance_bytes a (sepiaAmount a) width height bytes !! (4 * k + c)
  = Some (colour_out a v).
Proof.
  cbv zeta. intros Hlen Hk Hc Hv.
  destruct (pixel_bytes bytes n k Hlen Hk) as (r & g & b & al & Hr & Hg & Hb & Hal).
  unfold enhance_bytes, quantize. rewrite list_lookup_fmap, blur_passes_with_exposure.
  destruct (lookup_tone_pass (with_exposure e) (sepiaAmount (with_exposure e))
              bytes k r g b al Hr Hg Hb Hal) as (Hr' & Hg' & Hb' & _).
  rewrite tone_pixel_with_exposure in Hr', Hg', Hb'. cbn [fst snd] in Hr', Hg', Hb'.
  unfold colour_out.
  destruct c as [|[|[|?]]]; [| | |lia].
  - rewrite Nat.add_0_r in *. rewrite Hr'. cbn [fmap option_fmap option_map]. congruence.
  - rewrite Hg'. cbn [fmap option_fmap option_map]. congruence.
  - rewrite Hb'. cbn [fmap option_fmap option_map]. congruence.
Qed.

(** Byte by byte: colour bytes go through [colour_out], alpha bytes
    through [alpha_out]. *)
Lemma enhance_bytes_with_exposure (e : num) width height bytes n :
  let a := with_exposure e in
  length bytes = 4 * n →
  enhance_bytes a (sepiaAmount a) width height bytes
  = imap (λ i v, if decide (i mod 4 = 3) then alpha_out v else colour_out a v) bytes.
Proof.
  cbv zeta. intros Hlen. apply list_eq. intros i.
  rewrite list_lookup_imap.
  destruct (decide (i < length bytes)) as [Hi|Hi].
  - destruct (lookup_lt_is_Some_2 bytes i Hi) as [v Hv]. rewrite Hv.
    cbn [fmap option_fmap option_map].
    pose proof (Nat.div_mod_eq i 4) as Hdm.
    pose proof (Nat.mod_upper_bound i 4) as Hm.
    assert (i / 4 < n) as Hk by lia.
    remember (i / 4) as k eqn:Ek. remember (i mod 4) as c eqn:Ec.
    clear Ek Ec. subst i. case_decide as Hc.
    + subst c. by apply (lookup_enhance_bytes_alpha _ _ _ _ _ n).
    + by apply (lookup_enhance_bytes_with_exposure _ _ _ _ n); [..|lia|].
  - rewrite !lookup_ge_None_2; [done|lia|rewrite length_enhance_bytes; lia].
Qed.
End Exposure.

(** ** Shape, blur window and skipped passes, for either arithmetic *)

Section Claims.
Context {num : Type} `{Number num}.

(** C1. For every well-shaped bitmap [b] (a buffer of [width * height * 4]
    bytes) and every adjustments record, [enhanceImageData] returns a
    bitmap of the same width and height whose buffer has the same length
    and is a buffer the store did not hold before the call, so it is not
    the buffer of [b], which the call leaves as it was. *)
Theorem restore_preserves_shape (b : ImageData) (bytes : list Z)
    (a : RestorationAdjustments num) (h : heap) :
  well_shaped b bytes h →
  ∃ b' h' out,
    enhanceImageData b a h = Some (b', h') ∧
    width b' = width b ∧ height b' = height b ∧
    h' !! data b' = Some out ∧ length out = length bytes ∧
    h !! data b' = None ∧ data b' ≠ data b ∧
    h' !! data b = Some bytes.
Proof.
  intros Hb. pose proof Hb as (Hdata & _).
  rewrite enhanceImageData_run.
  rewrite (run_pipeline_well_shaped _ b bytes h Hb) by apply length_enhance_bytes.
  assert (h !! fresh (dom h) = None) as Hfresh.
  { apply not_elem_of_dom, is_fresh. }
  assert (fresh (dom h) ≠ data b) as Hne by congruence.
  eexists _, _, _. split; [reflexivity|]. cbn [width height data].
  rewrite lookup_insert_eq, lookup_insert_ne by done.
  repeat split; try done. apply length_enhance_bytes.
Qed.

(** C4. On a buffer of [width * height * 4] numbers, [boxBlur] returns a
    buffer of the same length whose value at channel [c] of the pixel at
    [(x, y)] is the mean, as stored in a [Float32Array], of that channel
    over the cells of [window]; these are, each once, the cells of the grid
    at distance at most one from [(x, y)] along both axes, so the divisor
    is the number of neighbours that exist: 9 inside the grid, fewer on its
    border, with no wrap-around and no padding. *)
Theorem boxBlur_window_mean (source : list num) (width height x y c : nat) :
  length source = 4 * (width * height) → x < width → y < height → c < 4 →
  length (boxBlur source width height) = length source ∧
  boxBlur source width height !! ((y * width + x) * 4 + c)
    = Some (fround (mean (window_samples source width height x y c))) ∧
  (∀ xx yy, (xx, yy) ∈ window width height x y
     ↔ xx < width ∧ yy < height ∧ x ≤ xx + 1 ∧ xx ≤ x + 1 ∧ y ≤ yy + 1 ∧ yy ≤ y + 1) ∧
  NoDup (window width height x y) ∧
  length (window_samples source width height x y c)
    = axis_cells width x * axis_cells height y ∧
  (0 < x → x + 1 < width → 0 < y → y + 1 < height →
     length (window_samples source width height x y c) = 9).
Proof.
  intros Hlen Hx Hy Hc.
  assert (length (window_samples source width height x y c)
          = axis_cells width x * axis_cells height y) as Hcells.
  { unfold window_samples. rewrite length_fmap. by apply length_window. }
  split_and!.
  - apply length_boxBlur.
  - rewrite lookup_boxBlur by (done || nia). by rewrite blur_value_mean.
  - intros xx yy. by apply elem_of_window.
  - apply NoDup_window.
  - done.
  - intros. rewrite Hcells. unfold axis_cells. by rewrite !decide_True by done.
Qed.

(** When neither guard holds, steps 9 and 10 are not run. *)
Lemma blur_passes_skipped (a : RestorationAdjustments num) s width height bytes :
  (denoise a >? lit 0)%js = false → (clarity a >? lit 0)%js = false →
  enhance_bytes a s width height bytes = quantize (tone_pass a s bytes).
Proof.
  intros Hd Hc. unfold enhance_bytes, clarity_pass, denoise_pass. by rewrite Hd, Hc.
Qed.
End Claims.

(** ** The program on binary64 *)

Section Binary64.
Implicit Types (a : RestorationAdjustments spec_float) (x y : spec_float).

Lemma b64_zero_is_zero : (lit (num:=spec_float) 0 === lit 0)%js = true.
Proof. reflexivity. Qed.

Lemma b64_zero_percent_is_zero :
  (lit (num:=spec_float) 0 / lit 100 === lit 0)%js = true.
Proof. reflexivity. Qed.

Lemma b64_zero_sepia_is_off :
  (lit (num:=spec_float) 0 / lit 100 * lit 100 <=? lit 0)%js = true.
Proof. reflexivity. Qed.

Lemma b64_zero_is_not_positive : (lit (num:=spec_float) 0 >? lit 0)%js = false.
Proof. reflexivity. Qed.

(** A property of bytes that holds for each of the 256 bytes. *)
Lemma for_all_bytes (P : Z → bool) :
  forallb P (seqZ 0 256) = true → ∀ v, (0 ≤ v ≤ 255)%Z → P v = true.
Proof.
  intros HP v Hv. rewrite forallb_forall in HP. apply HP.
  apply list_elem_of_In, elem_of_seqZ. lia.
Qed.

Lemma b64_alpha_out (v : Z) : (0 ≤ v ≤ 255)%Z → alpha_out (num:=spec_float) v = v.
Proof.
  intros Hv. apply Z.eqb_eq.
  apply (for_all_bytes (λ v, alpha_out (num:=spec_float) v =? v)%Z); [|done].
  vm_compute. reflexivity.
Qed.

Lemma b64_colour_out_neutral (v : Z) :
  (0 ≤ v ≤ 255)%Z → colour_out (num:=spec_float) CLEAN_SLATE_ADJUSTMENTS v = v.
Proof.
  intros Hv. apply Z.eqb_eq.
  apply (for_all_bytes
           (λ v, colour_out (num:=spec_float) CLEAN_SLATE_ADJUSTMENTS v =? v)%Z);
    [|done].
  vm_compute. reflexivity.
Qed.

Lemma b64_enhance_bytes_neutral width height bytes n :
  length bytes = 4 * n → Forall (λ v, 0 ≤ v ≤ 255)%Z bytes →
  enhance_bytes (num:=spec_float) CLEAN_SLATE_ADJUSTMENTS
    (sepiaAmount CLEAN_SLATE_ADJUSTMENTS) width height bytes = bytes.
Proof.
  intros Hlen Hbytes.
  change (CLEAN_SLATE_ADJUSTMENTS (num:=spec_float))
    with (with_exposure (num:=spec_float) (lit 0)).
  rewrite (enhance_bytes_with_exposure b64_zero_is_zero b64_zero_percent_is_zero
             b64_zero_sepia_is_off b64_zero_is_not_positive _ _ _ _ n Hlen).
  apply list_eq. intros i. rewrite list_lookup_imap.
  destruct (bytes !! i) as [v|] eqn:Hv; [|done]. cbn [fmap option_fmap option_map].
  assert (0 ≤ v ≤ 255)%Z as Hr by (by eapply (proj1 (Forall_lookup _ _) Hbytes)).
  case_decide; f_equal; [by apply b64_alpha_out|].
  by apply b64_colour_out_neutral.
Qed.

(** C2. With the all-zero [CLEAN_SLATE_ADJUSTMENTS], [enhanceImageData]
    returns every bitmap byte for byte: the exposure offset is 0, the
    contrast factor is exactly 1, each colour operator returns its input,
    neither blur pass runs, and the last clamp and store keep each byte. *)
Theorem restore_neutral_identity (b : ImageData) (bytes : list Z) (h : heap) :
  valid_bitmap b bytes h →
  (∃ b' h',
     enhanceImageData (num:=spec_float) b CLEAN_SLATE_ADJUSTMENTS h = Some (b', h') ∧
     width b' = width b ∧ height b' = height b ∧
     h' !! data b' = Some bytes) ∧
  exposureOffset (num:=spec_float) CLEAN_SLATE_ADJUSTMENTS = lit 0 ∧
  contrastFactor (num:=spec_float) CLEAN_SLATE_ADJUSTMENTS = lit 1 ∧
  (∀ r g bl,
     tone_pixel (num:=spec_float) CLEAN_SLATE_ADJUSTMENTS
       (sepiaAmount CLEAN_SLATE_ADJUSTMENTS) r g bl
     = (exposed CLEAN_SLATE_ADJUSTMENTS r, exposed CLEAN_SLATE_ADJUSTMENTS g,
        exposed CLEAN_SLATE_ADJUSTMENTS bl)) ∧
  (∀ w, clarity_pass (num:=spec_float) CLEAN_SLATE_ADJUSTMENTS (width b) (height b)
          (denoise_pass CLEAN_SLATE_ADJUSTMENTS (width b) (height b) w) = w) ∧
  (∀ v, (0 ≤ v ≤ 255)%Z → ToUint8Clamp (num:=spec_float) (clamp255 (lit v)) = v).
Proof.
  intros [Hshape Hbytes]. split_and!.
  - rewrite enhanceImageData_run.
    rewrite (run_pipeline_well_shaped _ b bytes h Hshape)
      by apply length_enhance_bytes.
    destruct Hshape as (_ & _ & _ & Hlen).
    rewrite (b64_enhance_bytes_neutral _ _ _ _ Hlen Hbytes).
    eexists _, _. split; [reflexivity|]. cbn [width height data].
    by rewrite lookup_insert_eq.
  - reflexivity.
  - reflexivity.
  - intros r g bl.
    apply (tone_pixel_with_exposure b64_zero_is_zero b64_zero_percent_is_zero
             b64_zero_sepia_is_off).
  - intros w. apply (blur_passes_with_exposure b64_zero_is_not_positive).
  - intros v Hv. apply Z.eqb_eq.
    apply (for_all_bytes
             (λ v, ToUint8Clamp (num:=spec_float) (clamp255 (lit v)) =? v)%Z); [|done].
    vm_compute. reflexivity.
Qed.

(** C9. Whatever the adjustments, the alpha byte of every pixel of the
    output is the alpha byte of that pixel of the input: the first loop
    only re-clamps it, the denoise and clarity loops do not write it, and the
    last clamp and store keep it. *)
Theorem restore_preserves_alpha (b : ImageData) (bytes : list Z) a (h : heap) :
  valid_bitmap b bytes h →
  ∃ b' h' out,
    enhanceImageData b a h = Some (b', h') ∧
    h' !! data b' = Some out ∧
    ∀ k, k < width b * height b → out !! (4 * k + 3) = bytes !! (4 * k + 3).
Proof.
  intros [Hshape Hbytes].
  rewrite enhanceImageData_run.
  rewrite (run_pipeline_well_shaped _ b bytes h Hshape) by apply length_enhance_bytes.
  destruct Hshape as (_ & _ & _ & Hlen).
  eexists _, _, _. split; [reflexivity|]. cbn [data].
  split; [by rewrite lookup_insert_eq|].
  intros k Hk.
  destruct (lookup_lt_is_Some_2 bytes (4 * k + 3)) as [v Hv]; [lia|].
  rewrite (lookup_enhance_bytes_alpha _ _ _ _ _ _ _ _ Hlen Hk Hv), Hv.
  f_equal. apply b64_alpha_out.
  by eapply (proj1 (Forall_lookup _ _) Hbytes).
Qed.

(** A double that is at most 0 is not above 0. *)
Lemma b64_le_zero_not_positive x : (x <=? lit 0)%js = true → (x >? lit 0)%js = false.
Proof. by destruct x as [[]|[]| |[] m e]. Qed.

(** C7. When [denoise <= 0] and [clarity <= 0], [enhanceImageData] does
    what the pipeline without steps 9 and 10 does, in which no blur is
    computed: the same result and the same store. *)
Theorem restore_skips_blur (b : ImageData) a (h : heap) :
  (denoise a <=? lit 0)%js = true → (clarity a <=? lit 0)%js = true →
  enhanceImageData b a h = enhanceImageData_without_blur b a h.
Proof.
  intros Hd%b64_le_zero_not_positive Hc%b64_le_zero_not_positive.
  rewrite enhanceImageData_run. unfold enhanceImageData_without_blur, run_pipeline.
  destruct (h !! data b) as [bytes|]; [|done]. cbn [mbind option_bind].
  unfold enhance_bytes_without_blur. by rewrite (blur_passes_skipped a _ _ _ _ Hd Hc).
Qed.

(** *** Ranges of the colour operators *)

Lemma SFcompare_antisym x y c :
  SFcompare x y = Some c → SFcompare y x = Some (CompOpp c).
Proof.
  destruct x as [sx|sx| |sx mx ex], y as [sy|sy| |sy my ey]; simpl;
    try destruct sx; try destruct sy; simpl; try (intros [= <-]; done).
  all: rewrite (Z.compare_antisym ex ey).
  all: replace (Pos.compare_cont Eq my mx) with (CompOpp (Pos.compare_cont Eq mx my))
         by apply Pos.compare_cont_antisym.
  all: destruct (ex ?= ey)%Z; simpl; try (intros [= <-]; done).
  all: destruct (Pos.compare_cont Eq mx my); simpl; intros [= <-]; done.
Qed.

Lemma b64_min_cases x y :
  b64_min x y = S754_nan ∨
  (b64_min x y = x ∧ b64_le x y = true) ∨ (b64_min x y = y ∧ b64_le y x = true).
Proof.
  unfold b64_min, b64_le, SFleb.
  destruct (SFcompare x y) as [[]|] eqn:E; [| | |by left].
  - apply SFcompare_antisym in E as E'. simpl in E'. rewrite E'. clear E E'.
    destruct x as [[]|?| |???]; auto.
  - by right; left.
  - apply SFcompare_antisym in E as E'. simpl in E'. right; right. by rewrite E'.
Qed.

Lemma b64_max_cases x y :
  b64_max x y = S754_nan ∨
  (b64_max x y = x ∧ b64_le y x = true) ∨ (b64_max x y = y ∧ b64_le x y = true).
Proof.
  unfold b64_max, b64_le, SFleb.
  destruct (SFcompare x y) as [[]|] eqn:E; [| | |by left].
  - apply SFcompare_antisym in E as E'. simpl in E'. rewrite E'. clear E E'.
    destruct x as [[]|?| |???]; auto.
  - by right; right.
  - apply SFcompare_antisym in E as E'. simpl in E'. right; left. by rewrite E'.
Qed.

Lemma b64_le_refl x : x ≠ S754_nan → b64_le x x = true.
Proof.
  intros Hx. unfold b64_le, SFleb.
  destruct x as [[]|[]| |[] m e]; try done; simpl;
    by rewrite Z.compare_refl, Pos.compare_cont_refl.
Qed.

Lemma b64_le_not_nan x y : b64_le x y = true → x ≠ S754_nan ∧ y ≠ S754_nan.
Proof. unfold b64_le, SFleb. by destruct x as [?|?| |???], y as [?|?| |???]. Qed.

(** [clamp] returns one of its three arguments, in range, or [NaN]. *)
Lemma b64_clamp_range (value lo hi : spec_float) :
  b64_le lo hi = true →
  clamp value lo hi = S754_nan ∨
  (b64_le lo (clamp value lo hi) = true ∧ b64_le (clamp value lo hi) hi = true).
Proof.
  intros Hlohi. unfold clamp. cbn [Math_min Math_max binary64].
  destruct (b64_le_not_nan _ _ Hlohi) as [Hlo Hhi].
  destruct (b64_min_cases hi (b64_max lo value)) as [Hn|[[Hn Hle]|[Hn Hle]]];
    [by left|right; rewrite Hn..].
  - split; [done|by apply b64_le_refl].
  - split; [|done].
    destruct (b64_max_cases lo value) as [Hm|[[Hm _]|[Hm Hle']]]; rewrite Hm in *.
    + by destruct hi.
    + by apply b64_le_refl.
    + done.
Qed.

Lemma b64_clamp255_ok x : b64_channel_ok (clamp255 x).
Proof.
  destruct (b64_clamp_range x (lit 0) (lit 255)) as [?|[??]]; [done|by left|].
  right. unfold in_range. cbn [nle binary64]. unfold clamp255. by rewrite H, H0.
Qed.

Lemma b64_adjustSaturation_ok r g b amount vibrance :
  in_range r = true → in_range g = true → in_range b = true →
  all3 b64_channel_ok (adjustSaturation r g b amount vibrance).
Proof.
  intros Hr Hg Hb. unfold adjustSaturation, all3.
  destruct (_ && _); cbn [fst snd]; [by split_and!; right|].
  split_and!; apply b64_clamp255_ok.
Qed.

Lemma b64_applyWarmth_ok r g b warmth :
  in_range r = true → in_range g = true → in_range b = true →
  all3 b64_channel_ok (applyWarmth r g b warmth).
Proof.
  intros Hr Hg Hb. unfold applyWarmth, all3.
  destruct (neq _ _); cbn [fst snd]; [by split_and!; right|].
  split_and!; apply b64_clamp255_ok.
Qed.

Lemma b64_applyShadowHighlight_ok r g b shadowLift highlightRecovery :
  in_range r = true → in_range g = true → in_range b = true →
  all3 b64_channel_ok (applyShadowHighlight r g b shadowLift highlightRecovery).
Proof.
  intros Hr Hg Hb. unfold applyShadowHighlight, all3.
  destruct (_ && _); cbn [fst snd]; [by split_and!; right|].
  split_and!; apply b64_clamp255_ok.
Qed.

Lemma scenario_well_shaped : well_shaped scenario_bitmap scenario_bytes scenario_store.
Proof. repeat split; simpl; lia. Defined.

Lemma scenario_valid : valid_bitmap scenario_bitmap scenario_bytes scenario_store.
Proof.
  split; [exact scenario_well_shaped|].
  unfold scenario_bytes. repeat (constructor; [lia|]). constructor.
Defined.

Lemma restore_preserves_shape_witness :
  well_shaped scenario_bitmap scenario_bytes scenario_store ∧
  ∃ b' h' out,
    enhanceImageData (num:=spec_float) scenario_bitmap DEFAULT_ADJUSTMENTS scenario_store
      = Some (b', h') ∧
    width b' = 2 ∧ height b' = 1 ∧
    h' !! data b' = Some out ∧ length out = 8 ∧
    scenario_store !! data b' = None ∧ data b' ≠ 1%positive ∧
    h' !! 1%positive = Some scenario_bytes.
Proof.
  split; [exact scenario_well_shaped|].
  exact (restore_preserves_shape scenario_bitmap scenario_bytes DEFAULT_ADJUSTMENTS
           scenario_store scenario_well_shaped).
Defined.

Lemma restore_neutral_identity_witness :
  valid_bitmap scenario_bitmap scenario_bytes scenario_store ∧
  ∃ b' h',
    enhanceImageData (num:=spec_float) scenario_bitmap CLEAN_SLATE_ADJUSTMENTS
      scenario_store = Some (b', h') ∧
    width b' = 2 ∧ height b' = 1 ∧ h' !! data b' = Some scenario_bytes.
Proof.
  split; [exact scenario_valid|].
  exact (proj1 (restore_neutral_identity scenario_bitmap scenario_bytes scenario_store
                  scenario_valid)).
Defined.

Lemma boxBlur_window_mean_witness :
  let source : list spec_float := lit <$> scenario_bytes in
  (length source = 4 * (2 * 1) ∧ 1 < 2 ∧ 0 < 1 ∧ 3 < 4) ∧
  boxBlur source 2 1 !! ((0 * 2 + 1) * 4 + 3)
    = Some (fround (mean (window_samples source 2 1 1 0 3))).
Proof.
  cbv zeta. split; [repeat split; simpl; lia|].
  apply (boxBlur_window_mean (lit <$> scenario_bytes) 2 1 1 0 3);
    [reflexivity|lia..].
Defined.

Lemma restore_preserves_alpha_witness :
  valid_bitmap scenario_bitmap scenario_bytes scenario_store ∧
  ∃ b' h' out,
    enhanceImageData (num:=spec_float) scenario_bitmap DEFAULT_ADJUSTMENTS scenario_store
      = Some (b', h') ∧
    h' !! data b' = Some out ∧
    ∀ k, k < 2 * 1 → out !! (4 * k + 3) = scenario_bytes !! (4 * k + 3).
Proof.
  split; [exact scenario_valid|].
  exact (restore_preserves_alpha scenario_bitmap scenario_bytes DEFAULT_ADJUSTMENTS
           scenario_store scenario_valid).
Defined.

Lemma restore_skips_blur_witness :
  let a : RestorationAdjustments spec_float :=
    {| exposure := lit 6; contrast := lit 12; saturation := lit 16;
       vibrance := lit 18; warmth := lit 4; sepiaReduction := lit 30;
       shadowLift := lit 12; highlightRecovery := lit 8; clarity := lit (-3);
       denoise := lit 0 |} in
  ((denoise a <=? lit 0)%js = true ∧ (clarity a <=? lit 0)%js = true) ∧
  enhanceImageData scenario_bitmap a scenario_store
  = enhanceImageData_without_blur scenario_bitmap a scenario_store.
Proof.
  cbv zeta. split; [split; reflexivity|].
  apply restore_skips_blur; reflexivity.
Defined.
End Binary64.

(** ** The program over the rationals *)

Section Exact.
Implicit Types (a : RestorationAdjustments Q) (x y v : Q).
Local Open Scope Q_scope.

Lemma Q_min_spec x y : Q_min x y <= x ∧ Q_min x y <= y ∧ (Q_min x y == x ∨ Q_min x y == y).
Proof.
  unfold Q_min. destruct (Qle_bool x y) eqn:E.
  - apply Qle_bool_iff in E. split_and!; [lra|lra|left; lra].
  - assert (¬ x <= y) by (rewrite <-Qle_bool_iff; congruence).
    split_and!; [lra|lra|right; lra].
Qed.

Lemma Q_max_spec x y : x <= Q_max x y ∧ y <= Q_max x y ∧ (Q_max x y == x ∨ Q_max x y == y).
Proof.
  unfold Q_max. destruct (Qle_bool x y) eqn:E.
  - apply Qle_bool_iff in E. split_and!; [lra|lra|right; lra].
  - assert (¬ x <= y) by (rewrite <-Qle_bool_iff; congruence).
    split_and!; [lra|lra|left; lra].
Qed.

Lemma Q_clamp_range v lo hi : lo <= hi → lo <= clamp v lo hi <= hi.
Proof.
  intros Hlohi. unfold clamp. cbn [Math_min Math_max exact].
  destruct (Q_min_spec hi (Q_max lo v)) as (? & ? & [?|?]);
    destruct (Q_max_spec lo v) as (? & ? & [?|?]); lra.
Qed.

Lemma Q_clamp_id v lo hi : lo <= v <= hi → clamp v lo hi == v.
Proof.
  intros Hv. unfold clamp. cbn [Math_min Math_max exact].
  destruct (Q_min_spec hi (Q_max lo v)) as (? & ? & [?|?]);
    destruct (Q_max_spec lo v) as (? & ? & [?|?]); lra.
Qed.

Lemma Q_clamp255_ok v : Q_channel_ok (clamp255 v).
Proof. unfold Q_channel_ok, clamp255. apply Q_clamp_range. done. Qed.

Lemma Q_clamp255_id v : 0 <= v <= 255 → clamp255 v == v.
Proof. intros. by apply Q_clamp_id. Qed.

Lemma Q_adjustSaturation_ok r g b amount vibrance :
  Q_channel_ok r → Q_channel_ok g → Q_channel_ok b →
  all3 Q_channel_ok (adjustSaturation r g b amount vibrance).
Proof.
  intros Hr Hg Hb. unfold adjustSaturation, all3.
  destruct (_ && _); cbn [fst snd]; [done|].
  split_and!; apply Q_clamp255_ok.
Qed.

Lemma Q_applyWarmth_ok r g b warmth :
  Q_channel_ok r → Q_channel_ok g → Q_channel_ok b →
  all3 Q_channel_ok (applyWarmth r g b warmth).
Proof.
  intros Hr Hg Hb. unfold applyWarmth, all3.
  destruct (neq _ _); cbn [fst snd]; [done|].
  split_and!; apply Q_clamp255_ok.
Qed.

Lemma Q_applyShadowHighlight_ok r g b shadowLift highlightRecovery :
  Q_channel_ok r → Q_channel_ok g → Q_channel_ok b →
  all3 Q_channel_ok (applyShadowHighlight r g b shadowLift highlightRecovery).
Proof.
  intros Hr Hg Hb. unfold applyShadowHighlight, all3.
  destruct (_ && _); cbn [fst snd]; [done|].
  split_and!; apply Q_clamp255_ok.
Qed.

(** Over the rationals, [removeSepia] keeps red and green in range and
    lets blue leave it by at most a tenth of the range. *)
Lemma Q_removeSepia_range r g b amount :
  Q_channel_ok r → Q_channel_ok g → Q_channel_ok b →
  let out := removeSepia r g b amount in
  Q_channel_ok out.1.1 ∧ Q_channel_ok out.1.2 ∧ -(51 # 2) <= out.2 <= 561 # 2.
Proof.
  intros Hr Hg Hb. cbv zeta. unfold removeSepia.
  destruct (nle _ _); cbn [fst snd]; [unfold Q_channel_ok in *; split_and!; try done; lra|].
  set (cr := clamp255 _). set (cg := clamp255 _). set (cb := clamp255 _).
  pose proof (Q_clamp255_ok (r - amount * dec 75 100)%js) as Hcr.
  pose proof (Q_clamp255_ok (g - amount * dec 75 100 * dec 5 10)%js) as Hcg.
  pose proof (Q_clamp255_ok (b + amount * dec 75 100 * dec 6 10)%js) as Hcb.
  fold cr in Hcr. fold cg in Hcg. fold cb in Hcb.
  unfold Q_channel_ok, lerp, luminance in *. cbn [nadd nsub nmul dec exact].
  clearbody cr cg cb. split_and!; lra.
Qed.
End Exact.

(** ** Exposure alone *)

Section ExactExposure.
Local Open Scope Q_scope.

Lemma Q_zero_is_zero : (lit (num:=Q) 0 === lit 0)%js = true.
Proof. reflexivity. Qed.

Lemma Q_zero_percent_is_zero : (lit (num:=Q) 0 / lit 100 === lit 0)%js = true.
Proof. reflexivity. Qed.

Lemma Q_zero_sepia_is_off : (lit (num:=Q) 0 / lit 100 * lit 100 <=? lit 0)%js = true.
Proof. reflexivity. Qed.

Lemma Q_zero_is_not_positive : (lit (num:=Q) 0 >? lit 0)%js = false.
Proof. reflexivity. Qed.

Lemma Q_clamp255_cases (v : Q) :
  (v <= 0 ∧ clamp255 v == 0) ∨ (0 <= v <= 255 ∧ clamp255 v == v) ∨
  (255 <= v ∧ clamp255 v == 255).
Proof.
  pose proof (Q_clamp255_ok v) as Hr. unfold Q_channel_ok in Hr.
  unfold clamp255, clamp in *. cbn [Math_min Math_max exact lit] in *.
  change (inject_Z 0) with 0 in *. change (inject_Z 255) with 255 in *.
  destruct (Q_min_spec 255 (Q_max 0 v)) as (? & ? & [?|?]);
    destruct (Q_max_spec 0 v) as (? & ? & [?|?]);
    destruct (Qlt_le_dec v 0), (Qlt_le_dec 255 v);
    first [left; split; lra | right; left; split; lra | right; right; split; lra].
Qed.

Lemma Q_clamp255_proper (x y : Q) : x == y → clamp255 x == clamp255 y.
Proof.
  intros Hxy.
  destruct (Q_clamp255_cases x) as [[? ?]|[[? ?]|[? ?]]];
    destruct (Q_clamp255_cases y) as [[? ?]|[[? ?]|[? ?]]]; lra.
Qed.

Lemma Q_round_half_even_proper (x y : Q) :
  x == y → Q_round_half_even x = Q_round_half_even y.
Proof.
  intros Hxy. unfold Q_round_half_even.
  rewrite (Qfloor_comp x y Hxy).
  assert ((x - inject_Z (Qfloor y) ?= 1 # 2) = (y - inject_Z (Qfloor y) ?= 1 # 2)) as ->;
    [|done].
  apply Qcompare_comp; [by rewrite Hxy|reflexivity].
Qed.

Lemma Q_ToUint8Clamp_proper (x y : Q) : x == y → Q_ToUint8Clamp x = Q_ToUint8Clamp y.
Proof. intros Hxy. unfold Q_ToUint8Clamp. by rewrite (Q_round_half_even_proper x y). Qed.

Lemma Q_ToUint8Clamp_byte (v : Z) : (0 ≤ v ≤ 255)%Z → Q_ToUint8Clamp (inject_Z v) = v.
Proof.
  intros Hv. unfold Q_ToUint8Clamp, Q_round_half_even.
  rewrite Qfloor_Z.
  destruct (Qcompare_spec (inject_Z v - inject_Z v) (1 # 2)); [lra|lia|lra].
Qed.

Lemma Q_ToUint8Clamp_range (x : Q) : (0 ≤ Q_ToUint8Clamp x ≤ 255)%Z.
Proof. unfold Q_ToUint8Clamp. lia. Qed.

Lemma Q_contrastFactor_with_exposure (e : Q) : contrastFactor (with_exposure e) == 1.
Proof. reflexivity. Qed.

(** Over the rationals the contrast step at factor 1 gives back what the
    exposure step left. *)
Lemma Q_exposed_with_exposure (e x : Q) :
  exposed (with_exposure e) x == clamp255 (x + e * (22 # 10)).
Proof.
  unfold exposed.
  change (exposureOffset (with_exposure e)) with (e * (22 # 10)).
  cbn [nadd nsub nmul lit exact].
  set (c := clamp255 (x + e * (22 # 10))).
  pose proof (Q_clamp255_ok (x + e * (22 # 10))) as Hc. fold c in Hc.
  unfold Q_channel_ok in Hc.
  rewrite (Q_clamp255_proper _ c).
  - by apply Q_clamp255_id.
  - rewrite Q_contrastFactor_with_exposure.
    change (inject_Z 128) with 128. lra.
Qed.

Lemma Q_colour_out_with_exposure (e : Q) (v : Z) :
  colour_out (with_exposure e) v = exposure_byte e v.
Proof.
  unfold colour_out, exposure_byte. cbn [ToUint8Clamp fround exact].
  apply Q_ToUint8Clamp_proper.
  rewrite (Q_clamp255_proper _ _ (Q_clamp255_proper _ _ (Q_exposed_with_exposure e _))).
  pose proof (Q_clamp255_ok (lit v + e * (22 # 10))%js) as Hc. unfold Q_channel_ok in Hc.
  rewrite (Q_clamp255_proper _ _ (Q_clamp255_id _ Hc)).
  by apply Q_clamp255_id.
Qed.

Lemma Q_alpha_out (v : Z) : (0 ≤ v ≤ 255)%Z → alpha_out (num:=Q) v = v.
Proof.
  intros Hv. unfold alpha_out. cbn [ToUint8Clamp fround lit exact].
  assert (0 <= inject_Z v <= 255) as Hq.
  { change 0 with (inject_Z 0). change 255 with (inject_Z 255).
    rewrite <-!Zle_Qle. lia. }
  rewrite (Q_ToUint8Clamp_proper _ (inject_Z v)); [by apply Q_ToUint8Clamp_byte|].
  rewrite (Q_clamp255_proper _ _ (Q_clamp255_id _ Hq)). by apply Q_clamp255_id.
Qed.

Lemma Q_enhance_bytes_with_exposure (e : Q) width height bytes n :
  length bytes = (4 * n)%nat → Forall (λ v, 0 ≤ v ≤ 255)%Z bytes →
  enhance_bytes (with_exposure e) (sepiaAmount (with_exposure e)) width height bytes
  = exposure_bytes e bytes.
Proof.
  intros Hlen Hbytes.
  rewrite (enhance_bytes_with_exposure Q_zero_is_zero Q_zero_percent_is_zero
             Q_zero_sepia_is_off Q_zero_is_not_positive _ _ _ _ n Hlen).
  unfold exposure_bytes. apply list_eq. intros i. rewrite !list_lookup_imap.
  destruct (bytes !! i) as [v|] eqn:Hv; [|done]. cbn [fmap option_fmap option_map].
  assert (0 ≤ v ≤ 255)%Z as Hr by (by eapply (proj1 (Forall_lookup _ _) Hbytes)).
  case_decide; f_equal; [by apply Q_alpha_out|apply Q_colour_out_with_exposure].
Qed.
End ExactExposure.

Section Binary64Exposure.

(** On doubles, for each position of the exposure slider and each byte, what
    comes out is the byte the rationals give: checked on the 81 by 256
    cases. *)
Lemma b64_colour_out_with_exposure (e v : Z) :
  (-40 ≤ e ≤ 40)%Z → (0 ≤ v ≤ 255)%Z →
  colour_out (num:=spec_float) (with_exposure (lit e)) v = exposure_byte (inject_Z e) v.
Proof.
  intros He Hv.
  assert (forallb (λ e, forallb (λ v,
            colour_out (num:=spec_float) (with_exposure (lit e)) v
            =? exposure_byte (inject_Z e) v)%Z (seqZ 0 256)) (seqZ (-40) 81) = true)
    as Hall by (vm_compute; reflexivity).
  rewrite forallb_forall in Hall.
  specialize (Hall e). rewrite forallb_forall in Hall.
  apply Z.eqb_eq, Hall; apply list_elem_of_In, elem_of_seqZ; lia.
Qed.

Lemma b64_enhance_bytes_with_exposure (e : Z) width height bytes n :
  (-40 ≤ e ≤ 40)%Z →
  length bytes = 4 * n → Forall (λ v, 0 ≤ v ≤ 255)%Z bytes →
  enhance_bytes (num:=spec_float) (with_exposure (lit e))
    (sepiaAmount (with_exposure (lit e))) width height bytes
  = exposure_bytes (inject_Z e) bytes.
Proof.
  intros He Hlen Hbytes.
  rewrite (enhance_bytes_with_exposure b64_zero_is_zero b64_zero_percent_is_zero
             b64_zero_sepia_is_off b64_zero_is_not_positive _ _ _ _ n Hlen).
  unfold exposure_bytes. apply list_eq. intros i. rewrite !list_lookup_imap.
  destruct (bytes !! i) as [v|] eqn:Hv; [|done]. cbn [fmap option_fmap option_map].
  assert (0 ≤ v ≤ 255)%Z as Hr by (by eapply (proj1 (Forall_lookup _ _) Hbytes)).
  case_decide; f_equal; [by apply b64_alpha_out|by apply b64_colour_out_with_exposure].
Qed.

Lemma b64_restore_with_exposure (b : ImageData) (bytes : list Z) (h : heap) (e : Z) :
  valid_bitmap b bytes h → (-40 ≤ e ≤ 40)%Z →
  ∃ b' h',
    enhanceImageData (num:=spec_float) b (with_exposure (lit e)) h = Some (b', h') ∧
    width b' = width b ∧ height b' = height b ∧
    h' !! data b' = Some (exposure_bytes (inject_Z e) bytes).
Proof.
  intros [Hshape Hbytes] He. pose proof Hshape as (_ & _ & _ & Hlen).
  rewrite enhanceImageData_run.
  rewrite (run_pipeline_well_shaped _ b bytes h Hshape) by apply length_enhance_bytes.
  rewrite (b64_enhance_bytes_with_exposure e _ _ _ _ He Hlen Hbytes).
  eexists _, _. split; [reflexivity|]. cbn [width height data].
  by rewrite lookup_insert_eq.
Qed.

(** C8. With all adjustments neutral but [exposure = e], [enhanceImageData]
    keeps width and height, keeps the alpha byte of every pixel and turns
    each colour byte [v] into the byte that [v + e * 2.2], clamped to
    [[0,255]], is stored as: over the rationals for every [e], and on doubles
    for each position [-40 .. 40] of the exposure slider.  On the 2 x 1
    bitmap [(10,10,10,255), (250,250,250,255)] with [exposure = 10] the result
    on doubles is [(32,32,32,255), (255,255,255,255)]. *)
Theorem restore_exposure (b : ImageData) (bytes : list Z) (h : heap) :
  valid_bitmap b bytes h →
  (∀ e : Q, ∃ b' h',
     enhanceImageData (num:=Q) b (with_exposure e) h = Some (b', h') ∧
     width b' = width b ∧ height b' = height b ∧
     h' !! data b' = Some (exposure_bytes e bytes)) ∧
  (∀ e : Z, (-40 ≤ e ≤ 40)%Z → ∃ b' h',
     enhanceImageData (num:=spec_float) b (with_exposure (lit e)) h = Some (b', h') ∧
     width b' = width b ∧ height b' = height b ∧
     h' !! data b' = Some (exposure_bytes (inject_Z e) bytes)) ∧
  (∃ b' h',
     enhanceImageData (num:=spec_float) scenario_bitmap (with_exposure (lit 10))
       scenario_store = Some (b', h') ∧
     width b' = 2 ∧ height b' = 1 ∧
     h' !! data b' = Some [32; 32; 32; 255; 255; 255; 255; 255]%Z).
Proof.
  intros [Hshape Hbytes]. pose proof Hshape as (_ & _ & _ & Hlen). split_and!.
  - intros e. rewrite enhanceImageData_run.
    rewrite (run_pipeline_well_shaped _ b bytes h Hshape) by apply length_enhance_bytes.
    rewrite (Q_enhance_bytes_with_exposure e _ _ _ _ Hlen Hbytes).
    eexists _, _. split; [reflexivity|]. cbn [width height data].
    by rewrite lookup_insert_eq.
  - intros e He. by apply b64_restore_with_exposure.
  - destruct (b64_restore_with_exposure scenario_bitmap scenario_bytes scenario_store 10
                scenario_valid) as (b' & h' & Hrun & Hw & Hh & Hout); [lia|].
    exists b', h'. split; [exact Hrun|]. split; [exact Hw|]. split; [exact Hh|].
    rewrite Hout. f_equal.
Qed.

Lemma restore_exposure_witness :
  valid_bitmap scenario_bitmap scenario_bytes scenario_store ∧
  ∃ b' h',
    enhanceImageData (num:=spec_float) scenario_bitmap (with_exposure (lit 10))
      scenario_store = Some (b', h') ∧
    width b' = 2 ∧ height b' = 1 ∧
    h' !! data b' = Some (exposure_bytes (inject_Z 10) scenario_bytes).
Proof.
  split; [exact scenario_valid|].
  apply (proj1 (proj2 (restore_exposure scenario_bitmap scenario_bytes scenario_store
                         scenario_valid)) 10%Z). lia.
Defined.
End Binary64Exposure.

(** ** The range of the colour operators *)

(** C3, as stated, fails: on channels in range and a positive amount,
    [removeSepia] returns a blue channel above 255 (278.66 for the pixel
    [(0, 0, 255)] and amount 1); and on doubles a clamped operator returns
    [NaN] where its arithmetic is undefined, here for finite parameters
    whose products overflow. *)
Lemma removeSepia_exceeds_range :
  let r : spec_float := lit 0 in
  let g : spec_float := lit 0 in
  let b : spec_float := lit 255 in
  (in_range r = true ∧ in_range g = true ∧ in_range b = true) ∧
  (lit (num:=spec_float) 1 >? lit 0)%js = true ∧
  in_range (removeSepia r g b (lit 1)).2 = false ∧
  ((removeSepia r g b (lit 1)).2 >? lit 255)%js = true ∧
  (0 <= (removeSepia (num:=Q) (lit 0) (lit 0) (lit 255) (lit 1)).2 - (2786589 # 10000) <= 0)%Q ∧
  (adjustSaturation r g b (lit (10 ^ 306)) (lit (- 10 ^ 306))).2 = S754_nan.
Proof. cbv zeta. split_and!; by vm_compute. Qed.

(** C3, amended. On channels in [[0,255]] and for all parameters:
    [adjustSaturation], [applyWarmth] and [applyShadowHighlight] return
    channels that each lie in [[0,255]] or, on doubles, are [NaN];
    [removeSepia] returns its input when [amount <= 0], and otherwise, over
    the rationals, a red and a green channel in [[0,255]] and a blue channel
    between -25.5 and 280.5. *)
Theorem colour_operators_range :
  (∀ r g b p q : spec_float,
     in_range r = true → in_range g = true → in_range b = true →
     all3 b64_channel_ok (adjustSaturation r g b p q) ∧
     all3 b64_channel_ok (applyWarmth r g b p) ∧
     all3 b64_channel_ok (applyShadowHighlight r g b p q) ∧
     ((p <=? lit 0)%js = true → removeSepia r g b p = (r, g, b))) ∧
  (∀ r g b p q : Q,
     Q_channel_ok r → Q_channel_ok g → Q_channel_ok b →
     all3 Q_channel_ok (adjustSaturation r g b p q) ∧
     all3 Q_channel_ok (applyWarmth r g b p) ∧
     all3 Q_channel_ok (applyShadowHighlight r g b p q) ∧
     Q_channel_ok (removeSepia r g b p).1.1 ∧
     Q_channel_ok (removeSepia r g b p).1.2 ∧
     (-(51 # 2) <= (removeSepia r g b p).2 <= 561 # 2)%Q).
Proof.
  split.
  - intros r g b p q Hr Hg Hb. split_and!.
    + by apply b64_adjustSaturation_ok.
    + by apply b64_applyWarmth_ok.
    + by apply b64_applyShadowHighlight_ok.
    + intros Hp. unfold removeSepia. by rewrite Hp.
  - intros r g b p q Hr Hg Hb.
    pose proof (Q_removeSepia_range r g b p Hr Hg Hb) as (HR & HG & HB).
    split; [by apply Q_adjustSaturation_ok|].
    split; [by apply Q_applyWarmth_ok|].
    split; [by apply Q_applyShadowHighlight_ok|].
    exact (conj HR (conj HG HB)).
Qed.

Lemma colour_operators_range_witness :
  let r : spec_float := lit 200 in
  let g : spec_float := lit 100 in
  let b : spec_float := lit 50 in
  (in_range r = true ∧ in_range g = true ∧ in_range b = true) ∧
  all3 b64_channel_ok (adjustSaturation r g b (lit 16 / lit 100)%js (lit 18 / lit 100)%js) ∧
  all3 b64_channel_ok (applyWarmth r g b (lit 16 / lit 100)%js) ∧
  all3 b64_channel_ok (applyShadowHighlight r g b (lit 16 / lit 100)%js (lit 18 / lit 100)%js).
Proof.
  cbv zeta. split; [by split_and!|].
  pose proof (proj1 colour_operators_range (lit 200) (lit 100) (lit 50)
                (lit 16 / lit 100)%js (lit 18 / lit 100)%js
                eq_refl eq_refl eq_refl) as (H1 & H2 & H3 & _).
  exact (conj H1 (conj H2 H3)).
Defined.

(** ** The amount handed to [removeSepia] *)

(** C6, as stated, fails on doubles. For [sepiaReduction = 7] the amount
    [7 / 100 * 100] is the double after 7, not 7; and for the smallest
    positive double the quotient by 100 is 0, so that [enhanceImageData]
    leaves the pixel [(200, 100, 50, 255)] as it is while the variant that
    passes [sepiaReduction] on turns it into [(179, 103, 43, 255)]. *)
Lemma sepia_scaling_not_exact :
  sepiaAmount (with_sepia (lit (num:=spec_float) 7)) ≠ lit 7 ∧
  sepiaAmount (with_sepia (lit (num:=spec_float) 7))
    = S754_finite false 7881299347898369 (-50) ∧
  lit (num:=spec_float) 7 = S754_finite false 7881299347898368 (-50) ∧
  valid_binary 53 1024 MIN_VALUE = true ∧
  sepiaAmount (with_sepia MIN_VALUE) = lit 0 ∧
  let b := {| width := 1; height := 1; data := 1%positive |} in
  let h : heap := {[ 1%positive := [200; 100; 50; 255]%Z ]} in
  valid_bitmap b [200; 100; 50; 255]%Z h ∧
  (∃ b1 h1, enhanceImageData b (with_sepia MIN_VALUE) h = Some (b1, h1) ∧
            h1 !! data b1 = Some [200; 100; 50; 255]%Z) ∧
  (∃ b2 h2, enhanceImageData_direct b (with_sepia MIN_VALUE) h = Some (b2, h2) ∧
            h2 !! data b2 = Some [179; 103; 43; 255]%Z) ∧
  enhanceImageData b (with_sepia MIN_VALUE) h
    ≠ enhanceImageData_direct b (with_sepia MIN_VALUE) h.
Proof.
  split; [by vm_compute|]. split; [by vm_compute|]. split; [by vm_compute|].
  split; [by vm_compute|]. split; [by vm_compute|]. cbv zeta.
  set (b := {| width := 1; height := 1; data := 1%positive |}).
  set (bytes := [200; 100; 50; 255]%Z).
  set (h := {[ 1%positive := bytes ]} : heap).
  assert (valid_bitmap b bytes h) as Hvalid.
  { split; [repeat split; simpl; lia|]. repeat (constructor; [lia|]). constructor. }
  assert (enhance_bytes (with_sepia MIN_VALUE) (sepiaAmount (with_sepia MIN_VALUE))
            1 1 bytes = bytes) as E1 by (by vm_compute).
  assert (enhance_bytes (with_sepia MIN_VALUE) (sepiaReduction (with_sepia MIN_VALUE))
            1 1 bytes = [179; 103; 43; 255]%Z) as E2 by (by vm_compute).
  rewrite enhanceImageData_run. unfold enhanceImageData_direct.
  rewrite !(run_pipeline_well_shaped _ b bytes h (proj1 Hvalid))
    by apply length_enhance_bytes.
  change (width b) with 1. change (height b) with 1. rewrite E1, E2.
  split; [done|].
  split; [eexists _, _; split; [done|]; apply lookup_insert_eq|].
  split; [eexists _, _; split; [done|]; apply lookup_insert_eq|].
  intros Heq.
  assert (<[fresh (dom h) := bytes]> h = <[fresh (dom h) := [179; 103; 43; 255]%Z]> h)
    as Hmap by congruence.
  apply (f_equal (λ m : heap, m !! fresh (dom h))) in Hmap.
  rewrite !lookup_insert_eq in Hmap. discriminate Hmap.
Qed.

(** C6, amended. For every bitmap and every adjustments record whose
    [sepiaReduction] the division and the multiplication by 100 give back,
    [enhanceImageData] and the variant that passes [sepiaReduction] to
    [removeSepia] as it is return the same result in the same store. *)
Theorem sepia_scaling_when_exact (b : ImageData) (a : RestorationAdjustments spec_float)
    (h : heap) :
  sepiaAmount a = sepiaReduction a →
  enhanceImageData b a h = enhanceImageData_direct b a h.
Proof.
  intros Hs. rewrite enhanceImageData_run. unfold enhanceImageData_direct.
  by rewrite Hs.
Qed.

Lemma sepia_scaling_when_exact_witness :
  sepiaAmount (num:=spec_float) DEFAULT_ADJUSTMENTS = sepiaReduction DEFAULT_ADJUSTMENTS ∧
  enhanceImageData (num:=spec_float) scenario_bitmap DEFAULT_ADJUSTMENTS scenario_store
  = enhanceImageData_direct (num:=spec_float) scenario_bitmap DEFAULT_ADJUSTMENTS
      scenario_store.
Proof.
  assert (sepiaAmount (num:=spec_float) DEFAULT_ADJUSTMENTS
          = sepiaReduction DEFAULT_ADJUSTMENTS) as Hs by (vm_compute; reflexivity).
  split; [exact Hs|].
  exact (sepia_scaling_when_exact scenario_bitmap DEFAULT_ADJUSTMENTS scenario_store Hs).
Defined.

(** Which positions of the slider the scaling gives back: all the integers
    from 0 to 80 but eight. *)
Lemma sepia_scaling_on_slider (s : Z) :
  (0 ≤ s ≤ 80)%Z →
  sepiaAmount (with_sepia (lit (num:=spec_float) s)) = lit s ↔ s ∉ sepia_inexact.
Proof.
  intros Hs.
  assert (forallb (λ s, bool_decide
            (sepiaAmount (with_sepia (lit (num:=spec_float) s)) = lit s
             ↔ s ∉ sepia_inexact)) (seqZ 0 81) = true) as Hall
    by (vm_compute; reflexivity).
  rewrite forallb_forall in Hall.
  eapply bool_decide_eq_true_1, Hall, list_elem_of_In, elem_of_seqZ. lia.
Qed.

(** * Further properties of the code *)

(** ** [clamp] on doubles *)

Lemma SFcompare_not_nan (x y : spec_float) :
  x ≠ S754_nan → y ≠ S754_nan → ∃ c, SFcompare x y = Some c.
Proof. destruct x as [?|?| |???], y as [?|?| |???]; simpl; try done; eauto. Qed.

(** Two doubles that compare equal compare alike with every third one. *)
Lemma SFcompare_eq_l (x y z : spec_float) :
  SFcompare x y = Some Eq → SFcompare z x = SFcompare z y.
Proof.
  destruct x as [sx|sx| |sx mx ex], y as [sy|sy| |sy my ey]; simpl; intros Heq;
    try discriminate Heq;
    try (destruct sx; discriminate Heq); try (destruct sy; discriminate Heq).
  - by destruct z.
  - destruct sx, sy; try discriminate Heq; by destruct z.
  - assert (sx = sy ∧ ex = ey ∧ mx = my) as (-> & -> & ->); [|done].
    destruct sx, sy; try discriminate Heq.
    all: destruct (ex ?= ey)%Z eqn:He; try discriminate Heq; apply Z.compare_eq in He.
    all: destruct (Pos.compare_cont Eq mx my) eqn:Hm; try discriminate Heq.
    all: by apply Pos.compare_eq in Hm.
Qed.

Lemma b64_eq_refl (x : spec_float) : x ≠ S754_nan → b64_eq x x = true.
Proof.
  intros Hx. unfold b64_eq, SFeqb.
  destruct x as [[]|[]| |[] m e]; try done; simpl;
    by rewrite Z.compare_refl, Pos.compare_cont_refl.
Qed.

Lemma b64_max_eq (lo v : spec_float) :
  b64_le lo v = true → b64_eq (b64_max lo v) v = true.
Proof.
  unfold b64_le, SFleb, b64_max, b64_eq, SFeqb.
  destruct (SFcompare lo v) as [[]|] eqn:E; try done; intros _.
  - destruct lo as [[]|?| |???]; rewrite ?E; try done.
    assert (v ≠ S754_nan) as Hv by (by destruct v).
    pose proof (b64_eq_refl v Hv) as Hr. unfold b64_eq, SFeqb in Hr.
    by destruct (SFcompare v v) as [[]|].
  - assert (v ≠ S754_nan) as Hv by (by destruct lo, v).
    pose proof (b64_eq_refl v Hv) as Hr. unfold b64_eq, SFeqb in Hr.
    by destruct (SFcompare v v) as [[]|].
Qed.

Lemma b64_min_eq (hi v : spec_float) :
  b64_le v hi = true → b64_eq (b64_min hi v) v = true.
Proof.
  unfold b64_le, SFleb, b64_min, b64_eq, SFeqb. intros Hle.
  assert (v ≠ S754_nan) as Hv by (by destruct v).
  pose proof (b64_eq_refl v Hv) as Hr. unfold b64_eq, SFeqb in Hr.
  destruct (SFcompare v hi) as [c|] eqn:E; [|done].
  rewrite (SFcompare_antisym _ _ _ E).
  destruct c; simpl; try done.
  - destruct hi as [[]|?| |???]; try done;
      by rewrite (SFcompare_antisym _ _ _ E).
Qed.

(** A value between the bounds comes back from [clamp] as it is, up to
    [===]. *)
Lemma b64_clamp_id (v lo hi : spec_float) :
  b64_le lo v = true → b64_le v hi = true → b64_eq (clamp v lo hi) v = true.
Proof.
  intros Hl Hh. unfold clamp. cbn [Math_min Math_max binary64].
  pose proof (b64_max_eq lo v Hl) as Hm.
  assert (b64_le (b64_max lo v) hi = true) as Hmh.
  { unfold b64_le, SFleb, b64_eq, SFeqb in *.
    destruct (SFcompare (b64_max lo v) v) as [[]|] eqn:E; try done.
    destruct (SFcompare v hi) as [c|] eqn:E'; [|done].
    apply SFcompare_antisym in E'.
    rewrite <-(SFcompare_eq_l _ _ hi E) in E'.
    apply SFcompare_antisym in E'. rewrite E'. by destruct c. }
  pose proof (b64_min_eq hi _ Hmh) as Hn.
  unfold b64_eq, SFeqb in *.
  destruct (SFcompare (b64_min hi (b64_max lo v)) (b64_max lo v)) as [[]|] eqn:E1;
    try done.
  destruct (SFcompare (b64_max lo v) v) as [[]|] eqn:E2; try done.
  by rewrite <-(SFcompare_eq_l _ _ _ E2), E1.
Qed.

Lemma clamp_b64_range_id (c : spec_float) :
  b64_le (lit 0) c = true → b64_le c (lit 255) = true →
  b64_eq (clamp255 c) c = true.
Proof. intros. by apply b64_clamp_id. Qed.

(** [clamp(value, min, max)] for [min <= max]: [NaN] goes to [NaN]; every
    other value goes into [[min, max]]; a value already there comes back as
    it is (up to [===], the sign of a zero can change); so clamping twice
    is clamping once. *)
Theorem clamp_b64_spec (value lo hi : spec_float) :
  b64_le lo hi = true →
  clamp S754_nan lo hi = S754_nan ∧
  (value ≠ S754_nan →
     b64_le lo (clamp value lo hi) = true ∧ b64_le (clamp value lo hi) hi = true) ∧
  (b64_le lo value = true → b64_le value hi = true →
     (clamp value lo hi === value)%js = true) ∧
  (value ≠ S754_nan →
     (clamp (clamp value lo hi) lo hi === clamp value lo hi)%js = true).
Proof.
  intros Hlohi. destruct (b64_le_not_nan _ _ Hlohi) as [Hlo Hhi].
  assert (value ≠ S754_nan →
          b64_le lo (clamp value lo hi) = true ∧ b64_le (clamp value lo hi) hi = true)
    as Hrange.
  { intros Hv. destruct (b64_clamp_range value lo hi Hlohi) as [Hnan|?]; [|done].
    exfalso. unfold clamp in Hnan. cbn [Math_min Math_max binary64] in Hnan.
    assert (b64_max lo value ≠ S754_nan) as Hm.
    { unfold b64_max. destruct (SFcompare_not_nan lo value Hlo Hv) as [c ->].
      destruct c; [destruct lo as [[]|?| |???]|..]; done. }
    revert Hnan. unfold b64_min.
    destruct (SFcompare_not_nan hi _ Hhi Hm) as [c ->].
    destruct c; [destruct hi as [[]|?| |???]|..]; done. }
  pose proof (λ v, b64_clamp_id v lo hi) as Hid.
  split_and!.
  - unfold clamp. cbn [Math_min Math_max binary64]. unfold b64_max, b64_min.
    replace (SFcompare lo S754_nan) with (@None comparison) by (by destruct lo).
    by destruct hi.
  - done.
  - apply Hid.
  - intros Hv. destruct (Hrange Hv). by apply Hid.
Qed.

Lemma clamp_b64_spec_witness :
  b64_le (lit (-80)) (lit 120) = true ∧
  clamp S754_nan (lit (-80)) (lit 120) = S754_nan ∧
  (clamp (lit 259) (lit (-80)) (lit 120) === lit (num:=spec_float) 120)%js = true.
Proof.
  split; [reflexivity|].
  pose proof (clamp_b64_spec (lit 259) (lit (-80)) (lit 120) eq_refl) as (H1 & _).
  split; [exact H1|reflexivity].
Defined.

(** ** The colour channels through the two blur loops *)

Section BlurLoops.
Context {num : Type} `{Number num}.
Implicit Types (w : list num) (i c : nat).

Lemma pixel_of_index k c : c < 4 → 4 * ((4 * k + c) / 4) = 4 * k.
Proof. intros Hc. f_equal. symmetry. apply (Nat.div_unique _ 4 k c); lia. Qed.

Lemma denoise_body_colour blurred mix i w c :
  c < 3 → i + c < length w →
  denoise_body blurred mix i w !! (i + c)
  = Some (fround (lerp (get w (i + c)) (get blurred (i + c)) mix)).
Proof.
  intros Hc Hlen. unfold denoise_body, get.
  rewrite !lookup_put, !length_put.
  destruct c as [|[|[|?]]]; [| | |lia]; rewrite ?Nat.add_0_r in *;
    repeat (case_decide; try lia); done.
Qed.

Lemma clarity_body_colour softened mix i w c :
  c < 3 → i + c < length w →
  clarity_body softened mix i w !! (i + c)
  = Some (fround (clamp255 (get w (i + c)
                            + (get w (i + c) - get softened (i + c)) * clarity_gain mix c)%js)).
Proof.
  intros Hc Hlen. unfold clarity_body, get, clarity_gain.
  rewrite !lookup_put, !length_put.
  destruct c as [|[|[|?]]]; [| | |lia]; rewrite ?Nat.add_0_r in *;
    repeat (case_decide; try lia); done.
Qed.

Lemma lookup_denoise_pass_colour (a : RestorationAdjustments num) width height w k c :
  c < 3 → 4 * k + c < length w →
  denoise_pass a width height w !! (4 * k + c)
  = Some (if (denoise a >? lit 0)%js
          then fround (lerp (get w (4 * k + c)) (get (boxBlur w width height) (4 * k + c))
                         (Math_min (dec 85 100) (denoise a / lit 100)%js))
          else get w (4 * k + c)).
Proof.
  intros Hc Hlen. unfold denoise_pass. destruct (nlt _ _).
  - rewrite lookup_for_each_pixel by apply denoise_body_local.
    rewrite pixel_of_index by lia. by apply denoise_body_colour.
  - unfold get. by destruct (lookup_lt_is_Some_2 w _ Hlen) as [v ->].
Qed.

Lemma lookup_clarity_pass_colour (a : RestorationAdjustments num) width height w k c :
  c < 3 → 4 * k + c < length w →
  clarity_pass a width height w !! (4 * k + c)
  = Some (if (clarity a >? lit 0)%js
          then fround (clamp255
                 (get w (4 * k + c)
                  + (get w (4 * k + c) - get (boxBlur w width height) (4 * k + c))
                    * clarity_gain (clarity a / lit 100) c)%js)
          else get w (4 * k + c)).
Proof.
  intros Hc Hlen. unfold clarity_pass. destruct (nlt _ _).
  - rewrite lookup_for_each_pixel by apply clarity_body_local.
    rewrite pixel_of_index by lia. by apply clarity_body_colour.
  - unfold get. by destruct (lookup_lt_is_Some_2 w _ Hlen) as [v ->].
Qed.

(** The colour channel [c] of pixel [k] after the first loop. *)
Lemma lookup_tone_pass_colour (a : RestorationAdjustments num) s bytes n k c r g b :
  length bytes = 4 * n → k < n → c < 3 →
  bytes !! (4 * k) = Some r → bytes !! (4 * k + 1) = Some g →
  bytes !! (4 * k + 2) = Some b →
  let p := tone_pixel a s (fround (lit r)) (fround (lit g)) (fround (lit b)) in
  tone_pass a s bytes !! (4 * k + c)
  = Some (fround (clamp255 (match c with 0 => p.1.1 | 1 => p.1.2 | _ => p.2 end))).
Proof.
  intros Hlen Hk Hc Hr Hg Hb. cbv zeta.
  destruct (lookup_lt_is_Some_2 bytes (4 * k + 3)) as [al Hal]; [lia|].
  destruct (lookup_tone_pass a s bytes k r g b al Hr Hg Hb Hal) as (Hr' & Hg' & Hb' & _).
  destruct c as [|[|[|?]]]; [| | |lia]; rewrite ?Nat.add_0_r; done.
Qed.
End BlurLoops.

(** ** [NaN] through the pipeline, on doubles *)

Section NaN.
Implicit Types (x y : spec_float) (a : RestorationAdjustments spec_float).

Lemma nan_add_l x : (S754_nan + x)%js = S754_nan.
Proof. reflexivity. Qed.
Lemma nan_add_r x : (x + S754_nan)%js = S754_nan.
Proof. by destruct x. Qed.
Lemma nan_sub_l x : (S754_nan - x)%js = S754_nan.
Proof. reflexivity. Qed.
Lemma nan_sub_r x : (x - S754_nan)%js = S754_nan.
Proof. by destruct x. Qed.
Lemma nan_mul_l x : (S754_nan * x)%js = S754_nan.
Proof. reflexivity. Qed.
Lemma nan_mul_r x : (x * S754_nan)%js = S754_nan.
Proof. by destruct x. Qed.
Lemma nan_div_l x : (S754_nan / x)%js = S754_nan.
Proof. reflexivity. Qed.
Lemma nan_clamp255 : clamp255 S754_nan = S754_nan.
Proof. reflexivity. Qed.
Lemma nan_fround : fround S754_nan = S754_nan.
Proof. reflexivity. Qed.

Ltac nan := rewrite ?nan_add_l, ?nan_add_r, ?nan_sub_l, ?nan_sub_r, ?nan_mul_l,
              ?nan_mul_r, ?nan_div_l, ?nan_clamp255, ?nan_fround.

Lemma nan_adjustSaturation p q :
  adjustSaturation S754_nan S754_nan S754_nan p q = (S754_nan, S754_nan, S754_nan).
Proof.
  unfold adjustSaturation, lerp, luminance. destruct (_ && _); [done|].
  by repeat nan.
Qed.

Lemma nan_removeSepia p :
  removeSepia S754_nan S754_nan S754_nan p = (S754_nan, S754_nan, S754_nan).
Proof.
  unfold removeSepia, lerp, luminance. destruct (nle _ _); [done|].
  by repeat nan.
Qed.

Lemma nan_applyWarmth p :
  applyWarmth S754_nan S754_nan S754_nan p = (S754_nan, S754_nan, S754_nan).
Proof. unfold applyWarmth. destruct (neq _ _); [done|]. by repeat nan. Qed.

Lemma nan_applyShadowHighlight p q :
  applyShadowHighlight S754_nan S754_nan S754_nan p q = (S754_nan, S754_nan, S754_nan).
Proof.
  unfold applyShadowHighlight. destruct (_ && _); [done|]. by repeat nan.
Qed.

Lemma nan_contrastFactor a : contrast a = S754_nan → contrastFactor a = S754_nan.
Proof.
  intros Hc. unfold contrastFactor, contrastClamped. rewrite Hc.
  change (clamp S754_nan (lit (-80)) (lit 120)) with S754_nan. by repeat nan.
Qed.

(** With a [NaN] exposure or contrast the three colour channels of every
    pixel are [NaN] after the first loop body, whatever else is set. *)
Lemma nan_tone_pixel a s r g b :
  exposure a = S754_nan ∨ contrast a = S754_nan →
  tone_pixel a s r g b = (S754_nan, S754_nan, S754_nan).
Proof.
  intros Hnan. unfold tone_pixel.
  assert (∀ v, clamp255 (contrastFactor a * (clamp255 (v + exposureOffset a) - lit 128)
                         + lit 128)%js = S754_nan) as Hv.
  { intros v. destruct Hnan as [He|Hc].
    - unfold exposureOffset. rewrite He. by repeat nan.
    - rewrite (nan_contrastFactor a Hc). by repeat nan. }
  rewrite !Hv, nan_adjustSaturation, nan_removeSepia, nan_applyWarmth.
  apply nan_applyShadowHighlight.
Qed.

Lemma nan_quantize : ToUint8Clamp (num:=spec_float) (clamp255 S754_nan) = 0%Z.
Proof. reflexivity. Qed.

Lemma nan_enhance_bytes a s width height bytes n k c :
  exposure a = S754_nan ∨ contrast a = S754_nan →
  length bytes = 4 * n → k < n → c < 3 →
  enhance_bytes a s width height bytes !! (4 * k + c) = Some 0%Z.
Proof.
  intros Hnan Hlen Hk Hc.
  destruct (pixel_bytes bytes n k Hlen Hk) as (r & g & b & al & Hr & Hg & Hb & Hal).
  pose proof (lookup_tone_pass_colour a s bytes n k c r g b Hlen Hk Hc Hr Hg Hb) as Ht.
  cbv zeta in Ht. rewrite (nan_tone_pixel a s _ _ _ Hnan) in Ht.
  assert (tone_pass a s bytes !! (4 * k + c) = Some S754_nan) as Ht'.
  { rewrite Ht. by destruct c as [|[|?]]. }
  unfold enhance_bytes, quantize. rewrite list_lookup_fmap.
  rewrite lookup_clarity_pass_colour
    by (rewrite ?length_denoise_pass, ?length_tone_pass; lia).
  assert (get (denoise_pass a width height (tone_pass a s bytes)) (4 * k + c) = S754_nan)
    as Hd.
  { unfold get. rewrite lookup_denoise_pass_colour by (rewrite ?length_tone_pass; lia).
    unfold get at 1 3. rewrite Ht'. cbn [default].
    destruct (nlt _ _); [|done]. unfold lerp. by repeat nan. }
  rewrite Hd. cbn [fmap option_fmap option_map]. f_equal.
  destruct (nlt _ _); [|done]. by repeat nan.
Qed.

(** A [NaN] exposure or contrast blacks the picture out: every colour
    byte of the output is 0, whatever the input and the other adjustments,
    and alpha is kept. *)
Theorem restore_nan_is_black (b : ImageData) (bytes : list Z) a (h : heap) :
  valid_bitmap b bytes h →
  exposure a = S754_nan ∨ contrast a = S754_nan →
  ∃ b' h' out,
    enhanceImageData b a h = Some (b', h') ∧
    h' !! data b' = Some out ∧
    ∀ k, k < width b * height b →
      out !! (4 * k) = Some 0%Z ∧ out !! (4 * k + 1) = Some 0%Z ∧
      out !! (4 * k + 2) = Some 0%Z ∧ out !! (4 * k + 3) = bytes !! (4 * k + 3).
Proof.
  intros [Hshape Hbytes] Hnan.
  rewrite enhanceImageData_run.
  rewrite (run_pipeline_well_shaped _ b bytes h Hshape) by apply length_enhance_bytes.
  destruct Hshape as (_ & _ & _ & Hlen).
  eexists _, _, _. split; [reflexivity|]. cbn [data].
  split; [by rewrite lookup_insert_eq|].
  intros k Hk.
  pose proof (nan_enhance_bytes a (sepiaAmount a) (width b) (height b) bytes _ k 0
                Hnan Hlen Hk) as H0.
  rewrite Nat.add_0_r in H0.
  split_and!; [by apply H0; lia|by apply (nan_enhance_bytes _ _ _ _ _ _ _ _ Hnan Hlen); lia..|].
  destruct (lookup_lt_is_Some_2 bytes (4 * k + 3)) as [v Hv]; [lia|].
  rewrite (lookup_enhance_bytes_alpha _ _ _ _ _ _ _ _ Hlen Hk Hv), Hv.
  f_equal. apply b64_alpha_out.
  by eapply (proj1 (Forall_lookup _ _) Hbytes).
Qed.
End NaN.

(** ** The dead zone of [applyShadowHighlight], on doubles *)

Section DeadZone.
Implicit Types (x y c : spec_float).

(** Adding and subtracting 0, then clamping, gives back a channel in
    range, up to [===]. *)
Lemma b64_adjust_by_zero c :
  in_range c = true → (clamp255 (c + lit 0 - lit 0)%js === c)%js = true.
Proof.
  intros Hc. unfold in_range in Hc. apply andb_true_iff in Hc as [Hlo Hhi].
  destruct c as [[]|[]| |[] m e]; try done.
  cbn [nadd nsub binary64].
  change (b64_sub (b64_add (S754_finite false m e) (lit 0)) (lit 0))
    with (S754_finite false m e).
  by apply (clamp_b64_range_id (S754_finite false m e)).
Qed.

(** In the dead zone (luminance neither below 118 nor above 170), or when
    neither parameter is positive, [applyShadowHighlight] returns the pixel
    it was given, up to [===] on each channel. *)
Theorem applyShadowHighlight_dead_zone (r g b shadowLift highlightRecovery : spec_float) :
  in_range r = true → in_range g = true → in_range b = true →
  ((luminance r g b <? lit 118)%js = false ∧ (luminance r g b >? lit 170)%js = false) ∨
  ((shadowLift >? lit 0)%js = false ∧ (highlightRecovery >? lit 0)%js = false) →
  let out := applyShadowHighlight r g b shadowLift highlightRecovery in
  (out.1.1 === r)%js = true ∧ (out.1.2 === g)%js = true ∧ (out.2 === b)%js = true.
Proof.
  intros Hr Hg Hb Hzone. cbv zeta. unfold applyShadowHighlight.
  assert (∀ c, in_range c = true → c ≠ S754_nan) as Hnn.
  { intros c Hc ->. done. }
  destruct (_ && _) eqn:Hid; cbn [fst snd].
  { split_and!; apply b64_eq_refl; by apply Hnn. }
  assert ((if (luminance r g b <? lit 118)%js && (shadowLift >? lit 0)%js
           then (shadowLift * ((lit 118 - luminance r g b) / lit 118) * dec 6 10)%js
           else lit 0) = lit 0) as ->.
  { destruct Hzone as [[-> _]|[-> _]]; [done|]. by rewrite andb_false_r. }
  assert ((if (luminance r g b >? lit 170)%js && (highlightRecovery >? lit 0)%js
           then (highlightRecovery * ((luminance r g b - lit 170) / (lit 255 - lit 170))
                 * dec 7 10)%js
           else lit 0) = lit 0) as ->.
  { destruct Hzone as [[_ ->]|[_ ->]]; [done|]. by rewrite andb_false_r. }
  split_and!; by apply b64_adjust_by_zero.
Qed.

Lemma applyShadowHighlight_dead_zone_witness :
  let r : spec_float := lit 150 in
  let g : spec_float := lit 130 in
  let b : spec_float := lit 120 in
  (in_range r = true ∧ in_range g = true ∧ in_range b = true ∧
   (luminance r g b <? lit 118)%js = false ∧ (luminance r g b >? lit 170)%js = false) ∧
  let out := applyShadowHighlight r g b (lit 40) (lit 40) in
  (out.1.1 === r)%js = true ∧ (out.1.2 === g)%js = true ∧ (out.2 === b)%js = true.
Proof.
  cbv zeta. split; [by vm_compute|].
  apply (applyShadowHighlight_dead_zone (lit 150) (lit 130) (lit 120) (lit 40) (lit 40));
    [reflexivity..|left; by vm_compute].
Defined.
End DeadZone.

(** ** What a pixel of the output depends on *)

Section Locality.
Context {num : Type} `{Number num}.

(** When neither blur pass runs, pixel [k] of the output is a function of
    pixel [k] of the input: two bitmaps of the same size that agree on a
    pixel give outputs that agree on it. *)
Theorem restore_without_blur_is_pointwise (a : RestorationAdjustments num) (s : num)
    (width height n k : nat) (bytes bytes' : list Z) :
  (denoise a >? lit 0)%js = false → (clarity a >? lit 0)%js = false →
  length bytes = 4 * n → length bytes' = 4 * n → k < n →
  (∀ c, c < 4 → bytes !! (4 * k + c) = bytes' !! (4 * k + c)) →
  ∀ c, c < 4 →
    enhance_bytes a s width height bytes !! (4 * k + c)
    = enhance_bytes a s width height bytes' !! (4 * k + c).
Proof.
  intros Hd Hcl Hlen Hlen' Hk Hsame c Hc.
  rewrite !(blur_passes_skipped a s width height _ Hd Hcl).
  unfold quantize. rewrite !list_lookup_fmap. f_equal.
  destruct (pixel_bytes bytes n k Hlen Hk) as (r & g & b & al & Hr & Hg & Hb & Hal).
  pose proof (Hsame 0) as H0. rewrite Nat.add_0_r in H0.
  assert (bytes' !! (4 * k) = Some r) as Hr' by (rewrite <-H0; [done|lia]).
  assert (bytes' !! (4 * k + 1) = Some g) as Hg' by (rewrite <-Hsame; [done|lia]).
  assert (bytes' !! (4 * k + 2) = Some b) as Hb' by (rewrite <-Hsame; [done|lia]).
  assert (bytes' !! (4 * k + 3) = Some al) as Hal' by (rewrite <-Hsame; [done|lia]).
  destruct (lookup_tone_pass a s bytes k r g b al Hr Hg Hb Hal) as (E0 & E1 & E2 & E3).
  destruct (lookup_tone_pass a s bytes' k r g b al Hr' Hg' Hb' Hal') as (F0 & F1 & F2 & F3).
  destruct c as [|[|[|[|?]]]]; [| | | |lia]; rewrite ?Nat.add_0_r; congruence.
Qed.

End Locality.

Lemma restore_without_blur_is_pointwise_witness :
  let a : RestorationAdjustments spec_float :=
    {| exposure := lit 6; contrast := lit 12; saturation := lit 16;
       vibrance := lit 18; warmth := lit 4; sepiaReduction := lit 30;
       shadowLift := lit 12; highlightRecovery := lit 8; clarity := lit 0;
       denoise := lit 0 |} in
  let bytes := [10; 10; 10; 255; 250; 250; 250; 255]%Z in
  let bytes' := [90; 80; 70; 60; 250; 250; 250; 255]%Z in
  ((denoise a >? lit 0)%js = false ∧ (clarity a >? lit 0)%js = false ∧
   length bytes = 4 * 2 ∧ length bytes' = 4 * 2 ∧ 1 < 2) ∧
  enhance_bytes a (sepiaAmount a) 2 1 bytes !! (4 * 1 + 0)
  = enhance_bytes a (sepiaAmount a) 2 1 bytes' !! (4 * 1 + 0).
Proof.
  cbv zeta. split; [repeat split; lia|].
  apply (restore_without_blur_is_pointwise _ _ 2 1 2 1); try reflexivity; lia.
Defined.

(** ** [boxBlur] outside the grid *)

Section OutsideGrid.
Context {num : Type} `{Number num}.

Lemma fold_blur_pixels_frame source width height (ps : list (nat * nat)) result j :
  Forall (λ p, ¬ ((p.2 * width + p.1) * 4 ≤ j < (p.2 * width + p.1) * 4 + 4)) ps →
  fold_left (λ r p, blur_pixel source width height r p.1 p.2) ps result !! j
  = result !! j.
Proof.
  revert result. induction ps as [|p ps IH]; intros result Hps; [done|].
  apply Forall_cons in Hps as [Hp Hps]. cbn [fold_left].
  rewrite IH by done. by apply blur_pixel_frame.
Qed.

(** [boxBlur] writes the pixels of the grid and nothing else: what the
    buffer holds beyond [width * height * 4] comes out as 0; in particular
    an empty grid gives a buffer of zeros. *)
Theorem boxBlur_outside_grid (source : list num) (width height j : nat) :
  4 * (width * height) ≤ j → j < length source →
  boxBlur source width height !! j = Some (lit 0).
Proof.
  intros Hj Hlen. unfold boxBlur.
  rewrite (fold_grid (λ r x y, blur_pixel source width height r x y)).
  rewrite fold_blur_pixels_frame.
  - unfold new_Float32Array. by apply lookup_replicate_2.
  - apply Forall_forall. intros [x y] [Hx Hy]%grid_cells. simpl in *. nia.
Qed.

End OutsideGrid.

Lemma boxBlur_outside_grid_witness :
  let source : list spec_float := lit <$> [1; 2; 3; 4; 5; 6; 7; 8]%Z in
  (4 * (1 * 1) ≤ 5 ∧ 5 < length source) ∧
  boxBlur source 1 1 !! 5 = Some (lit 0).
Proof.
  cbv zeta. split; [split; simpl; lia|].
  apply (boxBlur_outside_grid (lit <$> [1; 2; 3; 4; 5; 6; 7; 8]%Z) 1 1 5); simpl; lia.
Defined.

(** ** The colour operators over the rationals *)

Section ExactOperators.
Local Open Scope Q_scope.
Implicit Types (r g b x y : Q).



Lemma Q_clamp255_mono x y : x <= y → clamp255 x <= clamp255 y.
Proof.
  intros Hxy.
  destruct (Q_clamp255_cases x) as [[? ?]|[[? ?]|[? ?]]];
    destruct (Q_clamp255_cases y) as [[? ?]|[[? ?]|[? ?]]]; lra.
Qed.

Lemma Q_luminance_gray (v : Q) : luminance v v v == v.
Proof. unfold luminance. cbn [nadd nmul dec exact]. lra. Qed.

Lemma Q_luminance_ok r g b :
  Q_channel_ok r → Q_channel_ok g → Q_channel_ok b → Q_channel_ok (luminance r g b).
Proof.
  unfold Q_channel_ok, luminance. cbn [nadd nmul dec exact]. intros. lra.
Qed.

(** The luminance weights add up to 1: a gray pixel [(v, v, v)] has
    luminance [v] over the rationals, and the luminance of channels in
    [[0,255]] lies in [[0,255]].  On doubles the luminance of a gray byte is
    within [2^-40] of it but is the byte itself for 189 of the 256 bytes only
    (not for 118 or 255, for instance). *)
Theorem luminance_gray :
  (∀ v : Q, luminance v v v == v) ∧
  (∀ r g b : Q, Q_channel_ok r → Q_channel_ok g → Q_channel_ok b →
     Q_channel_ok (luminance r g b)) ∧
  (∀ v : Z, (0 ≤ v ≤ 255)%Z →
     let gray : spec_float := luminance (lit v) (lit v) (lit v) in
     (lit v - dec 1 (2 ^ 40) <=? gray)%js = true ∧
     (gray <=? lit v + dec 1 (2 ^ 40))%js = true) ∧
  length (filter (λ v, luminance (num:=spec_float) (lit v) (lit v) (lit v) = lit v)
            (seqZ 0 256)) = 189%nat ∧
  luminance (num:=spec_float) (lit 118) (lit 118) (lit 118) ≠ lit 118 ∧
  luminance (num:=spec_float) (lit 255) (lit 255) (lit 255) ≠ lit 255.
Proof.
  split; [exact Q_luminance_gray|]. split; [exact Q_luminance_ok|].
  split; [|split; [by vm_compute|split; by vm_compute]].
  intros v Hv. cbv zeta. apply andb_true_iff.
  apply (for_all_bytes
           (λ v, let gray : spec_float := luminance (lit v) (lit v) (lit v) in
                 (lit v - dec 1 (2 ^ 40) <=? gray)%js
                 && (gray <=? lit v + dec 1 (2 ^ 40))%js)); [|done].
  by vm_compute.
Qed.




End ExactOperators.

Section ExactOperators2.
Local Open Scope Q_scope.
Implicit Types (r g b x y : Q).






End ExactOperators2.

(** ** The blur over the rationals *)

Section ExactBlur.
Local Open Scope Q_scope.
Implicit Types (l source w : list Q) (lo hi : Q).











(** *** Flat pictures through the denoise and clarity passes *)






End ExactBlur.

(** ** The working buffer stays in range *)

Section ExactWorking.
Local Open Scope Q_scope.
Implicit Types (w : list Q) (a : RestorationAdjustments Q).







End ExactWorking.


Lemma restore_nan_is_black_witness :
  valid_bitmap scenario_bitmap scenario_bytes scenario_store ∧
  (exposure (with_exposure (num:=spec_float) S754_nan) = S754_nan ∨
   contrast (with_exposure (num:=spec_float) S754_nan) = S754_nan) ∧
  ∃ b' h' out,
    enhanceImageData (num:=spec_float) scenario_bitmap (with_exposure S754_nan)
      scenario_store = Some (b', h') ∧
    h' !! data b' = Some out ∧
    ∀ k, k < width scenario_bitmap * height scenario_bitmap →
      out !! (4 * k) = Some 0%Z ∧ out !! (4 * k + 1) = Some 0%Z ∧
      out !! (4 * k + 2) = Some 0%Z ∧
      out !! (4 * k + 3) = scenario_bytes !! (4 * k + 3).
Proof.
  split; [exact scenario_valid|]. split; [left; reflexivity|].
  exact (restore_nan_is_black scenario_bitmap scenario_bytes (with_exposure S754_nan)
           scenario_store scenario_valid (or_introl eq_refl)).
Defined.


(** ** The page *)

Section PageProperties.
Context {num : Type} `{Number num}.
Implicit Types (a : RestorationAdjustments num) (s : PageState (num:=num)).

Lemma get_set_adjustment a key value k :
  get_adjustment (set_adjustment a key value) k
  = if decide (key = k) then value else get_adjustment a k.
Proof. by destruct k. Qed.

Lemma spread_nil a : spread a [] = a.
Proof. reflexivity. Qed.






(** *** Adjustments stay on the sliders *)

Lemma on_slider_lit (slider : Slider) (z : Z) :
  (slider_min slider ≤ z ≤ slider_max slider)%Z → lit z ∈ slider_positions (num:=num) slider.
Proof.
  intros Hz. apply list_elem_of_fmap. exists z. split; [done|].
  apply elem_of_seqZ. lia.
Qed.

Lemma slider_key_inj (s1 s2 : Slider) :
  s1 ∈ SLIDERS → s2 ∈ SLIDERS → slider_key s1 = slider_key s2 → s1 = s2.
Proof.
  unfold SLIDERS. rewrite !elem_of_cons, !elem_of_nil.
  intros H1 H2 Hk.
  repeat (destruct H1 as [->|H1]); try done;
    repeat (destruct H2 as [->|H2]); try done.
Qed.

Lemma set_on_sliders a (slider : Slider) (value : num) :
  slider ∈ SLIDERS → value ∈ slider_positions slider → on_sliders a →
  on_sliders (set_adjustment a (slider_key slider) value).
Proof.
  intros Hin Hv Ha. unfold on_sliders in *. rewrite Forall_forall in *.
  intros s' Hs'. rewrite get_set_adjustment. case_decide as Hk.
  - by rewrite <-(slider_key_inj _ _ Hin Hs' Hk).
  - by apply Ha.
Qed.

Lemma clean_slate_on_sliders : on_sliders (CLEAN_SLATE_ADJUSTMENTS (num:=num)).
Proof.
  unfold on_sliders, SLIDERS. repeat (constructor; [apply on_slider_lit; cbn; lia|]).
  constructor.
Qed.

Lemma presets_on_sliders (preset : Preset) :
  preset ∈ PRESETS (num:=num) → on_sliders (preset_adjustments preset).
Proof.
  unfold PRESETS. rewrite !elem_of_cons, !elem_of_nil.
  intros [->|[->|[->|[->|[]]]]];
    unfold on_sliders, SLIDERS;
    repeat (constructor; [apply on_slider_lit; cbn; lia|]); constructor.
Qed.

Lemma handle_on_sliders s e :
  slider_event e → on_sliders (adjustments s) → on_sliders (adjustments (handle s e)).
Proof.
  intros He Hs. destruct e as [file_type file_name| |i| | |i value]; cbn [handle].
  - unfold handleFile. destruct (negb _); [exact Hs|].
    apply (presets_on_sliders {| preset_id := "auto";
                                  preset_adjustments := spread DEFAULT_ADJUSTMENTS [] |}).
    apply list_elem_of_here.
  - exact Hs.
  - destruct (PRESETS !! i) as [preset|] eqn:Hi; [|exact Hs].
    cbn [preset_onClick adjustments]. rewrite spread_nil.
    apply presets_on_sliders. by eapply list_elem_of_lookup_2.
  - apply clean_slate_on_sliders.
  - unfold auto_onClick. destruct (PRESETS !! 0) as [preset|] eqn:Hi; [|exact Hs].
    cbn [preset_onClick adjustments]. rewrite spread_nil.
    apply presets_on_sliders. by eapply list_elem_of_lookup_2.
  - destruct (SLIDERS !! i) as [slider|] eqn:Hi; [|exact Hs].
    cbn [slider_onChange adjustments].
    apply set_on_sliders; [by eapply list_elem_of_lookup_2|by apply He|exact Hs].
Qed.

Lemma run_on_sliders events s :
  Forall slider_event events → on_sliders (adjustments s) →
  on_sliders (adjustments (run events s)).
Proof.
  revert s. induction events as [|e events IH]; intros s Hev Hs; [exact Hs|].
  inversion_clear Hev. apply IH; [done|]. by apply handle_on_sliders.
Qed.

Lemma on_sliders_lookup a (slider : Slider) :
  on_sliders a → slider ∈ SLIDERS →
  ∃ z, get_adjustment a (slider_key slider) = lit z ∧
       (slider_min slider ≤ z ≤ slider_max slider)%Z.
Proof.
  intros Ha Hin. unfold on_sliders in Ha. rewrite Forall_forall in Ha.
  apply Ha, list_elem_of_fmap in Hin as (z & -> & Hz).
  exists z. split; [done|]. apply elem_of_seqZ in Hz. lia.
Qed.
End PageProperties.

Section PageBinary64.

Lemma b64_contrast_on_slider (z : Z) :
  (-40 ≤ z ≤ 60)%Z →
  clamp (num:=spec_float) (lit z) (lit (-80)) (lit 120) = lit z ∧
  truthy (num:=spec_float) (lit 259 - lit z)%js = true.
Proof.
  intros Hz.
  assert (forallb (λ z, bool_decide
            (clamp (num:=spec_float) (lit z) (lit (-80)) (lit 120) = lit z ∧
             truthy (num:=spec_float) (lit 259 - lit z)%js = true))
            (seqZ (-40) 101) = true) as Hall by (vm_compute; reflexivity).
  rewrite forallb_forall in Hall.
  eapply bool_decide_eq_true_1, Hall, list_elem_of_In, elem_of_seqZ. lia.
Qed.

Lemma b64_blur_mix_on_slider (z : Z) :
  (0 ≤ z ≤ 60)%Z →
  Math_min (num:=spec_float) (dec 85 100) (lit z / lit 100)%js = (lit z / lit 100)%js.
Proof.
  intros Hz.
  assert (forallb (λ z, bool_decide
            (Math_min (num:=spec_float) (dec 85 100) (lit z / lit 100)%js
             = (lit z / lit 100)%js))
            (seqZ 0 61) = true) as Hall by (vm_compute; reflexivity).
  rewrite forallb_forall in Hall.
  eapply bool_decide_eq_true_1, Hall, list_elem_of_In, elem_of_seqZ. lia.
Qed.

(** From the page the pipeline never meets its guards. As long as each
    slider reports one of its positions, every adjustment the page holds is
    an integer within the bounds of its slider; so, on doubles, the clamp of
    the contrast to [[-80, 120]] changes nothing, [259 - contrast] is never
    replaced by [0.0001], and the denoise mix never reaches its cap of
    [0.85]. *)
Theorem page_adjustments_on_sliders (events : list (Event (num:=spec_float))) :
  Forall slider_event events →
  let a := adjustments (run events initial_state) in
  Forall (λ slider, ∃ z, get_adjustment a (slider_key slider) = lit z ∧
                         (slider_min slider ≤ z ≤ slider_max slider)%Z) SLIDERS ∧
  contrastClamped a = contrast a ∧
  contrastDivisor a = (lit 255 * (lit 259 - contrast a))%js ∧
  Math_min (dec 85 100) (denoise a / lit 100)%js = (denoise a / lit 100)%js.
Proof.
  intros Hev. cbv zeta.
  pose proof (run_on_sliders events initial_state Hev clean_slate_on_sliders) as Ha.
  set (a := adjustments (run events initial_state)) in *.
  split.
  { apply Forall_forall. intros slider Hin. by apply on_sliders_lookup. }
  destruct (on_sliders_lookup a {| slider_key := key_contrast; slider_min := -40;
                                   slider_max := 60 |} Ha) as (c & Hc & Hcr).
  { unfold SLIDERS. rewrite !elem_of_cons. tauto. }
  destruct (on_sliders_lookup a {| slider_key := key_denoise; slider_min := 0;
                                   slider_max := 60 |} Ha) as (d & Hd & Hdr).
  { unfold SLIDERS. rewrite !elem_of_cons. tauto. }
  cbn [slider_key slider_min slider_max get_adjustment] in Hc, Hcr, Hd, Hdr.
  destruct (b64_contrast_on_slider c Hcr) as [Hclamp Htruthy].
  assert (contrastClamped a = contrast a) as Hcc.
  { unfold contrastClamped. by rewrite Hc. }
  split; [exact Hcc|]. split.
  - unfold contrastDivisor. rewrite Hcc, Hc. by rewrite Htruthy.
  - rewrite Hd. by apply b64_blur_mix_on_slider.
Qed.
End PageBinary64.

Lemma page_adjustments_on_sliders_witness :
  let events : list (Event (num:=spec_float)) :=
    [file_chosen "image/png" "photo.png"; preset_clicked 2; slider_changed 1 (lit 60);
     slider_changed 9 (lit 0); file_chosen "text/plain" "notes.txt"] in
  Forall slider_event events ∧
  let a := adjustments (run events initial_state) in
  Forall (λ slider, ∃ z, get_adjustment a (slider_key slider) = lit z ∧
                         (slider_min slider ≤ z ≤ slider_max slider)%Z) SLIDERS ∧
  contrastClamped a = contrast a ∧
  contrastDivisor a = (lit 255 * (lit 259 - contrast a))%js ∧
  Math_min (dec 85 100) (denoise a / lit 100)%js = (denoise a / lit 100)%js.
Proof.
  cbv zeta.
  assert (Forall (slider_event (num:=spec_float))
            [file_chosen "image/png" "photo.png"; preset_clicked 2;
             slider_changed 1 (lit 60); slider_changed 9 (lit 0);
             file_chosen "text/plain" "notes.txt"]) as Hev.
  { repeat constructor.
    - intros slider [= <-]. apply on_slider_lit. cbn. lia.
    - intros slider [= <-]. apply on_slider_lit. cbn. lia. }
  split; [exact Hev|].
  exact (page_adjustments_on_sliders _ Hev).
Defined.

(** *** The usage badge *)

Section PageExact.
Local Open Scope Q_scope.






End PageExact.


(** ** The sepia amount on the positions of its slider *)

Lemma sepia_scaling_on_slider_witness :
  (0 ≤ 30 ≤ 80)%Z ∧
  (sepiaAmount (with_sepia (lit (num:=spec_float) 30)) = lit 30 ↔ 30%Z ∉ sepia_inexact).
Proof.
  split; [lia|]. apply (sepia_scaling_on_slider 30). lia.
Defined.
